(** * validate_snowsql.py: token substitution and validation of .snowsql files

    A shallow embedding of [scripts/sql/snowflake/validate_snowsql.py].

    - Python [str] values are [string]s; a character is a code point below
      256.
    - [os.environ] is a finite map from names to values.
    - The file system is a finite map from paths to file contents; the
      functions that touch it pass it along explicitly. Its entries are
      regular files that can be opened and read as text: a directory, a
      file without read permission or with bytes that do not decode is
      not an entry, so that [open(path).read()] raises for a path that
      is absent and for no other.
    - [subprocess.run] and the name chosen by [tempfile.NamedTemporaryFile]
      are the two things the script does not decide itself; they are the
      variables of the sections below.
    - The write of the temporary file can fail after the file is created;
      [validate_file_when] takes the way it goes, and [validate_file] is
      the case in which it succeeds. *)

From Stdlib Require Import ZArith Ascii String List Lia.
From stdpp Require Import gmap strings list fin_maps.
From Equations Require Import Equations.

(** ** Strings *)

Module Str.

(** [c in s] for a single character. *)
Fixpoint has_char (c : ascii) (s : string) : bool :=
  match s with
  | EmptyString => false
  | String x s' => Ascii.eqb x c || has_char c s'
  end.

(** [s.startswith(p)] *)
Fixpoint startswith (p s : string) : bool :=
  match p, s with
  | EmptyString, _ => true
  | String x p', String y s' => Ascii.eqb x y && startswith p' s'
  | String _ _, EmptyString => false
  end.

(** [needle in hay] *)
Fixpoint contains (needle hay : string) : bool :=
  startswith needle hay ||
  match hay with
  | EmptyString => false
  | String _ hay' => contains needle hay'
  end.

(** [s.endswith(suffix)]: [s] is [suffix], or what follows its first
    character ends with [suffix]. *)
Fixpoint endswith (suffix s : string) : bool :=
  String.eqb s suffix ||
  match s with
  | EmptyString => false
  | String _ s' => endswith suffix s'
  end.

(** [c.isspace()] for a code point below 256: tab to carriage return,
    the four separators 28 to 31, space, NEL and the no-break space. *)
Definition isspace (c : ascii) : bool :=
  let n := N_of_ascii c in
  ((9 <=? n) && (n <=? 13) || (28 <=? n) && (n <=? 32)
   || (n =? 133) || (n =? 160))%N.

Fixpoint lstrip (s : string) : string :=
  match s with
  | EmptyString => EmptyString
  | String c s' => if isspace c then lstrip s' else s
  end.

Fixpoint rstrip (s : string) : string :=
  match s with
  | EmptyString => EmptyString
  | String c s' =>
      match rstrip s' with
      | EmptyString => if isspace c then EmptyString else String c EmptyString
      | r => String c r
      end
  end.

(** [s.strip()] *)
Definition strip (s : string) : string := rstrip (lstrip s).

Definition flush (cur : option string) : list string :=
  match cur with Some w => [w] | None => [] end.

Fixpoint split_go (cur : option string) (s : string) : list string :=
  match s with
  | EmptyString => flush cur
  | String c s' =>
      if isspace c then flush cur ++ split_go None s'
      else
        split_go (Some (match cur with
                        | Some w => w +:+ String c EmptyString
                        | None => String c EmptyString
                        end)) s'
  end.

(** [s.split()]: the maximal runs of characters that are not white
    space. *)
Definition split (s : string) : list string := split_go None s.

(** Every character of [s] is white space: [s] is empty or
    [s.isspace()]. *)
Fixpoint blank (s : string) : bool :=
  match s with
  | EmptyString => true
  | String c s' => isspace c && blank s'
  end.


(** [sep * n] *)
Fixpoint repeat (sep : string) (n : nat) : string :=
  match n with
  | O => EmptyString
  | S n' => sep +:+ repeat sep n'
  end.

(** [''.join(l)] *)
Fixpoint join (l : list string) : string :=
  match l with
  | [] => EmptyString
  | x :: l' => x +:+ join l'
  end.

End Str.

(** ** The token pattern [\$\{([^}]+)\}] *)

Module Re.

(** The fragment of regular expressions the pattern is written in. *)
Inductive regex : Type :=
| Chr (c : ascii)            (* a literal character *)
| NotChr (c : ascii)         (* [^c] *)
| Cat (r1 r2 : regex)
| Plus (r : regex).          (* r+ *)

Inductive matches : regex -> string -> Prop :=
| m_chr c : matches (Chr c) (String c "")
| m_notchr c x : x <> c -> matches (NotChr c) (String x "")
| m_cat r1 r2 s1 s2 :
    matches r1 s1 -> matches r2 s2 -> matches (Cat r1 r2) (s1 +:+ s2)
| m_plus_one r s : matches r s -> matches (Plus r) s
| m_plus_more r s1 s2 :
    matches r s1 -> matches (Plus r) s2 -> matches (Plus r) (s1 +:+ s2).

Definition name_re : regex := Plus (NotChr "}").
Definition token_re : regex :=
  Cat (Chr "$") (Cat (Chr "{") (Cat name_re (Chr "}"))).

(** The longest run of characters other than [}] that is followed by
    [}]: the run and what follows the brace. A shorter run is followed by
    a character that is not [}], so this is the only way [[^}]*\}] can
    match here. *)
Fixpoint until_rbrace (s : string) : option (string * string) :=
  match s with
  | EmptyString => None
  | String c s' =>
      if Ascii.eqb c "}" then Some (EmptyString, s')
      else match until_rbrace s' with
           | Some (name, rest) => Some (String c name, rest)
           | None => None
           end
  end.

(** A match of the pattern anchored at the start of [s]: group 1 and the
    text after the match. *)
Definition match_here (s : string) : option (string * string) :=
  match s with
  | String c0 (String c1 body) =>
      if Ascii.eqb c0 "$" && Ascii.eqb c1 "{" then
        match until_rbrace body with
        | Some (String c name, rest) => Some (String c name, rest)
        | _ => None
        end
      else None
  | _ => None
  end.

(** The text after a match is shorter than the text: the recursion of the
    scan is well founded. *)
Local Ltac rest_is_shorter e :=
  let Hu := fresh "Hu" in
  assert (forall s n r, until_rbrace s = Some (n, r) ->
                        String.length r < String.length s) as Hu;
  [ let s := fresh "s" in
    let c := fresh "c" in
    let IH := fresh "IH" in
    induction s as [|c s IH]; intros ? ?; simpl;
    [ discriminate
    | destruct (Ascii.eqb c "}");
      [ intros [= <- <-]; lia
      | destruct (until_rbrace s) as [[? ?]|];
        [ intros [= <- <-]; specialize (IH _ _ eq_refl); lia
        | discriminate ] ] ]
  | unfold match_here in e;
    repeat match type of e with
           | context [match ?x with _ => _ end] =>
               let E := fresh "E" in
               destruct x eqn:E; try discriminate e
           end;
    injection e as <- <-;
    match goal with
    | E : until_rbrace _ = Some _ |- _ => apply Hu in E; simpl in *; lia
    end ].

Definition inspect {A} (a : A) : {b : A | a = b} := exist _ a eq_refl.

(** [re.sub(pattern, repl, s)] with a callable [repl]: scan left to
    right; at a match, call [repl] on it and go on after the match;
    otherwise copy one character. What [repl] returns is inserted as it
    is. [repl] is a closure over mutable state, here [St]. *)
Equations? sub {St : Type} (repl : string -> St -> string * St)
    (s : string) (st : St) : string * St by wf (String.length s) lt :=
  sub repl EmptyString st := (EmptyString, st);
  sub repl (String c s') st with inspect (match_here (String c s')) => {
    | exist _ (Some (name, rest)) _ :=
        let '(r, st1) := repl name st in
        let '(out, st2) := sub repl rest st1 in
        (r +:+ out, st2);
    | exist _ None _ :=
        let '(out, st2) := sub repl s' st in
        (String c out, st2) }.
Proof. rest_is_shorter e. Qed.

(** The three cases of [sub], as equations. *)
Definition sub_step {St : Type} (repl : string -> St -> string * St)
    (c : ascii) (s' : string) (st : St)
    (m : option (string * string)) : string * St :=
  match m with
  | Some (name, rest) =>
      let '(r, st1) := repl name st in
      let '(out, st2) := sub repl rest st1 in
      (r +:+ out, st2)
  | None =>
      let '(out, st2) := sub repl s' st in
      (String c out, st2)
  end.

(** The matches [re.finditer] yields, in order, with the characters
    between them: the same scan as [sub], without the replacement. *)
Inductive segment : Type :=
| Text (c : ascii)           (* a character outside every match *)
| Ref (name : string).       (* a match, with its group 1 *)

Equations? scan (s : string) : list segment by wf (String.length s) lt :=
  scan EmptyString := [];
  scan (String c s') with inspect (match_here (String c s')) => {
    | exist _ (Some (name, rest)) _ := Ref name :: scan rest;
    | exist _ None _ := Text c :: scan s' }.
Proof. rest_is_shorter e. Qed.

Definition scan_step (c : ascii) (s' : string)
    (m : option (string * string)) : list segment :=
  match m with
  | Some (name, rest) => Ref name :: scan rest
  | None => Text c :: scan s'
  end.

(** The text a list of segments was scanned from. *)
Fixpoint source (segs : list segment) : string :=
  match segs with
  | [] => ""
  | Text c :: segs' => String c (source segs')
  | Ref name :: segs' => "${" +:+ name +:+ "}" +:+ source segs'
  end.

(** The names of the matches, in order: [re.findall]. *)
Fixpoint refs (segs : list segment) : list string :=
  match segs with
  | [] => []
  | Text _ :: segs' => refs segs'
  | Ref name :: segs' => name :: refs segs'
  end.

Definition findall (s : string) : list string := refs (scan s).

(** Replace every match of a scanned text, threading the state of
    [repl] from left to right. *)
Fixpoint replace {St : Type} (repl : string -> St -> string * St)
    (segs : list segment) (st : St) : string * St :=
  match segs with
  | [] => ("", st)
  | Text c :: segs' =>
      let '(out, st2) := replace repl segs' st in (String c out, st2)
  | Ref name :: segs' =>
      let '(r, st1) := repl name st in
      let '(out, st2) := replace repl segs' st1 in
      (r +:+ out, st2)
  end.

End Re.

(** ** Token substitution *)

(** The closure [replacer]: [missing] is the list it appends to. *)
Definition replacer (environ : gmap string string)
    (token : string) (missing : list string) : string * list string :=
  match environ !! token with
  | None => ("'__MISSING_" +:+ token +:+ "__'", missing ++ [token])
  | Some value => (value, missing)
  end.

Definition substitute_tokens (environ : gmap string string)
    (content : string) : string * list string :=
  Re.sub (replacer environ) content [].

(** ** The interpreter state, exceptions and the outside world *)

(** The exceptions the statements speak of. The script has one [except]
    clause, for [subprocess.TimeoutExpired]; it tells no other exception
    from another. [OSError] stands for an [OSError] of any class raised
    outside [open] and [os.unlink] (a process that cannot be started, a
    write that fails), with its message. *)
Inductive exn : Type :=
| TimeoutExpired                      (* subprocess.TimeoutExpired *)
| FileNotFoundError (path : string)   (* open(path), os.unlink(path) *)
| OSError (msg : string)
| SystemExit (code : Z).              (* raised by sys.exit *)

Inductive result (A : Type) : Type :=
| Return (a : A)
| Raise (e : exn).
Arguments Return {A} a.
Arguments Raise {A} e.

(** What [print] writes, one constructor for each [print] of the script
    (or group of them), with the values it interpolates. *)
Inductive line : Type :=
| NoChangedFiles                      (* "No changed .snowsql files detected. ..." *)
| NoSnowsqlFiles                      (* "No .snowsql files in changed set. ..." *)
| Banner (n : nat)                    (* the header, "Files to validate: n" *)
| Validating (filepath : string)
| FileNotFound                        (* "File not found (possibly deleted ...). Skipping." *)
| MissingTokens (missing : list string)
| Passed
| Failed (output : string)            (* "FAILED" and the lines of the output *)
| ResultFailed (nfailed n : nat) (failed : list string)
| ResultPassed (n : nat).

Record world : Type := World {
  fs : gmap string string;            (* path -> content of the file *)
  console : list line                 (* what was printed so far *)
}.

Definition M (A : Type) : Type := world -> result A * world.

#[global] Instance M_ret : MRet M := fun A a w => (Return a, w).
#[global] Instance M_bind : MBind M := fun A B f m w =>
  match m w with
  | (Return a, w1) => f a w1
  | (Raise e, w1) => (Raise e, w1)
  end.

Definition raise {A : Type} (e : exn) : M A := fun w => (Raise e, w).

(** [try: body  except ...: handler]; [handler e = None] when no
    [except] clause catches [e]. *)
Definition try_except {A : Type} (body : M A)
    (handler : exn -> option (M A)) : M A := fun w =>
  match body w with
  | (Return a, w1) => (Return a, w1)
  | (Raise e, w1) =>
      match handler e with
      | Some h => h w1
      | None => (Raise e, w1)
      end
  end.

(** [try: body  finally: cleanup]: [cleanup] runs whatever [body] did;
    the outcome is that of [body] unless [cleanup] raises. *)
Definition try_finally {A : Type} (body : M A) (cleanup : M unit) : M A :=
  fun w =>
    let '(r, w1) := body w in
    match cleanup w1 with
    | (Return _, w2) => (r, w2)
    | (Raise e, w2) => (Raise e, w2)
    end.

Definition print (l : line) : M unit := fun w =>
  (Return tt, World (fs w) (console w ++ [l])).

(** [open(path).read()] *)
Definition read_file (path : string) : M string := fun w =>
  match fs w !! path with
  | Some content => (Return content, w)
  | None => (Raise (FileNotFoundError path), w)
  end.

(** [open(path, 'w')] and the writes that follow. *)
Definition write_file (path content : string) : M unit := fun w =>
  (Return tt, World (<[path := content]> (fs w)) (console w)).

Definition path_exists (path : string) : M bool := fun w =>
  (Return (bool_decide (is_Some (fs w !! path))), w).

(** [os.unlink(path)] *)
Definition unlink (path : string) : M unit := fun w =>
  match fs w !! path with
  | Some _ => (Return tt, World (delete path (fs w)) (console w))
  | None => (Raise (FileNotFoundError path), w)
  end.

Definition sys_exit {A : Type} (code : Z) : M A := raise (SystemExit code).

(** [subprocess.CompletedProcess] *)
Record completed_process : Type := CompletedProcess {
  returncode : Z;
  stdout : string;
  stderr : string
}.

(** What a child process does when it is started. *)
Inductive child : Type :=
| Finishes (after_ms : Z) (p : completed_process)
| NeverFinishes
| CannotStart (msg : string).

(** How the write of the temporary file goes, once the file is created:
    [tmp.write] and the close at the end of the [with] block succeed, or
    one of them raises (the disk is full, the text cannot be encoded) and
    the file holds what was written until then. *)
Inductive write_outcome : Type :=
| Written
| WriteFails (e : exn) (partial : string).

(** The exit status the operating system sees for a run of the
    interpreter. *)
Definition exit_status {A : Type} (r : result A) : Z :=
  match r with
  | Return _ => 0
  | Raise (SystemExit code) => code
  | Raise _ => 1
  end.

Section Script.

(** [spawn argv files]: the behaviour of the program [argv] started on
    the file system [files]. It reads files and writes none. *)
Variable spawn : list string -> gmap string string -> child.

(** The path [tempfile.NamedTemporaryFile(suffix='.sql', delete=False)]
    creates on a given file system. *)
Variable mkstemp : gmap string string -> string.

(** [subprocess.run(argv, capture_output=True, text=True,
    timeout=timeout)], [timeout] in seconds. *)
Definition subprocess_run (argv : list string) (timeout : Z)
    : M completed_process := fun w =>
  match spawn argv (fs w) with
  | Finishes after_ms p =>
      if (timeout * 1000 <? after_ms)%Z then (Raise TimeoutExpired, w)
      else (Return p, w)
  | NeverFinishes => (Raise TimeoutExpired, w)
  | CannotStart msg => (Raise (OSError msg), w)
  end.

(** The [with tempfile.NamedTemporaryFile(...) as tmp] block: the file
    is created with [delete=False], written and closed, and stays on
    disk, also when the write raises: the block is not inside the
    [try]. *)
Definition named_temporary_file_when (how : write_outcome)
    (content : string) : M string := fun w =>
  let tmp_path := mkstemp (fs w) in
  match how with
  | Written =>
      (Return tmp_path, World (<[tmp_path := content]> (fs w)) (console w))
  | WriteFails e partial =>
      (Raise e, World (<[tmp_path := partial]> (fs w)) (console w))
  end.

Definition validate_file_when (how : write_outcome)
    (environ : gmap string string)
    (filepath : string) : M (bool * string * list string) :=
  content ← read_file filepath;
  let '(substituted, missing_tokens) := substitute_tokens environ content in
  tmp_path ← named_temporary_file_when how substituted;
  try_finally
    (try_except
       (result ← subprocess_run
                   ["sqlfluff"; "parse"; "--dialect"; "snowflake";
                    "--disable-progress-bar"; "--nofail"; tmp_path] 120;
        let output := stdout result +:+ stderr result in
        let has_error :=
          Str.contains "[UNPARSABLE]" output
          || Str.contains "FATAL" output
          || negb ((returncode result =? 0)%Z || (returncode result =? 1)%Z) in
        mret (negb has_error, output, missing_tokens))
       (fun e =>
          match e with
          | TimeoutExpired =>
              Some (mret (false, "Validation timed out after 120 seconds.",
                          missing_tokens))
          | _ => None
          end))
    (unlink tmp_path).

(** The block and the function when the temporary file is written. *)
Definition named_temporary_file : string -> M string :=
  named_temporary_file_when Written.

Definition validate_file
    : gmap string string -> string -> M (bool * string * list string) :=
  validate_file_when Written.

Definition ERROR_LOG : string := "/tmp/snowsql_errors.txt".

(** An entry of [all_errors]: the dictionary with the keys ['file'] and
    ['output']. *)
Record error_entry : Type := ErrorEntry {
  err_file : string;
  err_output : string
}.

(** The [for filepath in files] loop; [all_errors] and [failed_files]
    are the two lists it appends to. *)
Fixpoint validate_all (environ : gmap string string) (files : list string)
    (all_errors : list error_entry) (failed_files : list string)
    : M (list error_entry * list string) :=
  match files with
  | [] => mret (all_errors, failed_files)
  | filepath :: files' =>
      print (Validating filepath);;
      found ← path_exists filepath;
      if negb found then
        print FileNotFound;;
        validate_all environ files' all_errors failed_files
      else
        '(passed, output, missing_tokens) ← validate_file environ filepath;
        (match missing_tokens with
         | [] => mret tt
         | _ => print (MissingTokens missing_tokens)
         end);;
        if (passed : bool) then
          print Passed;;
          validate_all environ files' all_errors failed_files
        else
          print (Failed (Str.strip output));;
          validate_all environ files'
            (all_errors ++ [ErrorEntry filepath (Str.strip output)])
            (failed_files ++ [filepath])
  end.

(** What the three [f.write] calls write for one entry. *)
Definition report_block (err : error_entry) : string :=
  ("File: " +:+ err_file err +:+ "
") +:+ (Str.repeat "-" 60 +:+ "
") +:+ (err_output err +:+ "

").

Definition main (environ : gmap string string) : M unit :=
  let files_env := Str.strip (default "" (environ !! "CHANGED_FILES")) in
  match files_env with
  | EmptyString => print NoChangedFiles;; sys_exit 0
  | _ =>
      let files :=
        List.filter (Str.endswith ".snowsql") (Str.split files_env) in
      match files with
      | [] => print NoSnowsqlFiles;; sys_exit 0
      | _ =>
          print (Banner (length files));;
          '(all_errors, failed_files) ← validate_all environ files [] [];
          (match all_errors with
           | [] => mret tt
           | _ => write_file ERROR_LOG
                    (Str.join (List.map report_block all_errors))
           end);;
          match failed_files with
          | [] =>
              print (ResultPassed (length files));; sys_exit 0
          | _ =>
              print (ResultFailed (length failed_files) (length files)
                       failed_files);;
              sys_exit 1
          end
      end
  end.

End Script.

(** ** Vocabulary of the statements *)

(** What [substitute_tokens] puts in the place of a segment of the scanned
    text: the character itself, or what [replacer] returns for the name. *)
Definition render (environ : gmap string string) (seg : Re.segment) : string :=
  match seg with
  | Re.Text c => String c ""
  | Re.Ref name => (replacer environ name []).1
  end.

Module Sql.

(** The text after the opening quote of a single-quoted literal:
    characters other than the quote and the backslash, a backslash with
    the character it escapes, a doubled quote, and then the closing
    quote at the very end. *)
Fixpoint literal_body (s : string) : bool :=
  match s with
  | EmptyString => false
  | String c s' =>
      if Ascii.eqb c "'" then
        match s' with
        | EmptyString => true
        | String d s'' => if Ascii.eqb d "'" then literal_body s'' else false
        end
      else if Ascii.eqb c "\" then
        match s' with
        | EmptyString => false
        | String _ s'' => literal_body s''
        end
      else literal_body s'
  end.

(** [s] is one single-quoted literal, from its first character to its
    last. *)
Definition quoted_literal (s : string) : bool :=
  match s with
  | EmptyString => false
  | String c s' => Ascii.eqb c "'" && literal_body s'
  end.

End Sql.

(** The command line of the checker for a temporary file. *)
Definition checker_argv (tmp_path : string) : list string :=
  ["sqlfluff"; "parse"; "--dialect"; "snowflake";
   "--disable-progress-bar"; "--nofail"; tmp_path].

(** The files [main] validates: the entries of [CHANGED_FILES] that end
    in [.snowsql]. *)
Definition candidates (environ : gmap string string) : list string :=
  List.filter (Str.endswith ".snowsql")
    (Str.split (Str.strip (default "" (environ !! "CHANGED_FILES")))).

(** The invocation of the checker ran longer than [timeout] seconds. *)
Definition exceeds (timeout : Z) (c : child) : Prop :=
  match c with
  | Finishes after_ms _ => (timeout * 1000 < after_ms)%Z
  | NeverFinishes => True
  | CannotStart _ => False
  end.

(** A run of the script on a small repository, used to try the
    statements out. The checker reads the file named last on its command
    line. *)
Module Scenario.

Definition checker (argv : list string) (files : gmap string string) : child :=
  match files !! List.last argv "" with
  | None => CannotStart "sqlfluff: no such file"
  | Some sql =>
      if Str.contains "sleep" sql then NeverFinishes
      else if Str.contains "SELEC " sql then
        Finishes 800
          (CompletedProcess 1 "L:   1 | P:   1 | [UNPARSABLE] SELEC 1" "")
      else if Str.contains "abort" sql then
        Finishes 300 (CompletedProcess 0 "" "FATAL: aborted")
      else Finishes 500 (CompletedProcess 0 "" "")
  end.

Definition tmp (files : gmap string string) : string := "/tmp/tmpk3x9.sql".

Definition disk : gmap string string :=
  {[ "a.snowsql" := "use ${DB}; select ${X}";
     "b.snowsql" := "SELEC 1";
     "c.snowsql" := "call sleep()";
     "d.snowsql" := "call abort()";
     "e.snowsql" := "select 1" ]}.

Definition env (changed : string) : gmap string string :=
  {[ "CHANGED_FILES" := changed; "DB" := "prod" ]}.

End Scenario.

(** What [validate_file] returns or raises for a path on the file system
    [files]. *)
Definition verdict (spawn : list string -> gmap string string -> child)
    (mkstemp : gmap string string -> string) (environ : gmap string string)
    (files : gmap string string) (filepath : string)
    : result (bool * string * list string) :=
  (validate_file spawn mkstemp environ filepath (World files [])).1.

(** The path is there and [validate_file] returns a failure for it. *)
Definition fails (spawn : list string -> gmap string string -> child)
    (mkstemp : gmap string string -> string) (environ : gmap string string)
    (files : gmap string string) (filepath : string) : bool :=
  match files !! filepath with
  | None => false
  | Some _ =>
      match verdict spawn mkstemp environ files filepath with
      | Return (passed, _, _) => negb passed
      | Raise _ => false
      end
  end.

(** The path is there and an exception leaves [validate_file]. *)
Definition crashes (spawn : list string -> gmap string string -> child)
    (mkstemp : gmap string string -> string) (environ : gmap string string)
    (files : gmap string string) (filepath : string) : bool :=
  match files !! filepath with
  | None => false
  | Some _ =>
      match verdict spawn mkstemp environ files filepath with
      | Return _ => false
      | Raise _ => true
      end
  end.

(** The entry of [all_errors] for a path: the path and the output
    [validate_file] returns for it, stripped. *)
Definition failure_entry (spawn : list string -> gmap string string -> child)
    (mkstemp : gmap string string -> string) (environ : gmap string string)
    (files : gmap string string) (filepath : string) : error_entry :=
  ErrorEntry filepath
    match verdict spawn mkstemp environ files filepath with
    | Return (_, output, _) => Str.strip output
    | Raise _ => ""
    end.

(** * Properties *)

(** ** Strings *)

Module StrFacts.
Import Str.

Lemma app_nil_l (s : string) : "" +:+ s = s.
Proof. reflexivity. Qed.

Lemma app_cons (c : ascii) (s t : string) :
  String c s +:+ t = String c (s +:+ t).
Proof. reflexivity. Qed.

Lemma app_nil_r (s : string) : s +:+ "" = s.
Proof.
  induction s as [|c s IH]; [reflexivity | rewrite app_cons; now f_equal].
Qed.

Lemma app_assoc (a b c : string) : (a +:+ b) +:+ c = a +:+ (b +:+ c).
Proof.
  induction a as [|x a IH]; [reflexivity | rewrite !app_cons; now f_equal].
Qed.

Lemma length_app (a b : string) :
  String.length (a +:+ b) = String.length a + String.length b.
Proof.
  induction a as [|x a IH]; [reflexivity |].
  rewrite app_cons. simpl. now rewrite IH.
Qed.

Lemma app_inv_tail (a b c : string) : a +:+ c = b +:+ c -> a = b.
Proof.
  revert b. induction a as [|x a IH]; intros [|y b] E.
  - reflexivity.
  - apply (f_equal String.length) in E.
    rewrite !length_app in E. simpl in E. lia.
  - apply (f_equal String.length) in E.
    rewrite !length_app in E. simpl in E. lia.
  - rewrite !app_cons in E. injection E as -> E. f_equal. now apply IH.
Qed.

Lemma has_char_app (c : ascii) (a b : string) :
  has_char c (a +:+ b) = has_char c a || has_char c b.
Proof.
  induction a as [|x a IH]; [reflexivity |].
  rewrite app_cons. simpl. now rewrite IH, orb_assoc.
Qed.

Lemma startswith_spec (p s : string) :
  startswith p s = true <-> exists rest, s = p +:+ rest.
Proof.
  revert s. induction p as [|x p IH]; intros s.
  - split; [intros _; now exists s | reflexivity].
  - destruct s as [|y s]; simpl.
    + split; [discriminate | intros [rest E]; discriminate E].
    + rewrite andb_true_iff, Ascii.eqb_eq, IH. split.
      * intros [-> [rest ->]]. now exists rest.
      * intros [rest E]. rewrite app_cons in E. injection E as -> ->.
        split; [reflexivity | now exists rest].
Qed.

Lemma contains_unfold (needle hay : string) :
  contains needle hay
  = startswith needle hay
    || match hay with
       | EmptyString => false
       | String _ hay' => contains needle hay'
       end.
Proof. destruct hay; reflexivity. Qed.

(** [contains] is the test for a substring. *)
Lemma contains_spec (needle hay : string) :
  contains needle hay = true
  <-> exists pre post, hay = pre +:+ needle +:+ post.
Proof.
  split.
  - induction hay as [|c hay IH]; rewrite contains_unfold, orb_true_iff.
    + intros [H | H]; [|discriminate].
      apply startswith_spec in H as [rest ->]. now exists "", rest.
    + intros [H | H].
      * apply startswith_spec in H as [rest ->]. now exists "", rest.
      * destruct (IH H) as (pre & post & ->). now exists (String c pre), post.
  - intros (pre & post & ->). induction pre as [|c pre IH].
    + rewrite app_nil_l, contains_unfold, orb_true_iff. left.
      apply startswith_spec. now exists post.
    + rewrite app_cons, contains_unfold, orb_true_iff. now right.
Qed.

Lemma endswith_unfold (suffix s : string) :
  endswith suffix s
  = String.eqb s suffix
    || match s with
       | EmptyString => false
       | String _ s' => endswith suffix s'
       end.
Proof. destruct s; reflexivity. Qed.

(** [endswith] is the test for a suffix. *)
Lemma endswith_spec (suffix s : string) :
  endswith suffix s = true <-> exists pre, s = pre +:+ suffix.
Proof.
  split.
  - induction s as [|c s IH]; rewrite endswith_unfold, orb_true_iff.
    + intros [H | H]; [|discriminate].
      apply String.eqb_eq in H as <-. now exists "".
    + intros [H | H].
      * apply String.eqb_eq in H as <-. now exists "".
      * destruct (IH H) as (pre & ->). now exists (String c pre).
  - intros (pre & ->). induction pre as [|c pre IH].
    + rewrite app_nil_l, endswith_unfold, orb_true_iff. left.
      apply String.eqb_refl.
    + rewrite app_cons, endswith_unfold, orb_true_iff. now right.
Qed.

Lemma blank_lstrip (s : string) : blank (lstrip s) = blank s.
Proof.
  induction s as [|c s IH]; [reflexivity |]. simpl.
  destruct (isspace c) eqn:E; [exact IH |]. simpl. now rewrite E.
Qed.

Lemma rstrip_nil (s : string) : rstrip s = "" <-> blank s = true.
Proof.
  induction s as [|c s IH]; [now split |]. simpl.
  destruct (rstrip s) as [|d r].
  - destruct (isspace c); simpl.
    + rewrite <- IH. now split.
    + split; discriminate.
  - rewrite andb_true_iff, <- IH. split; [discriminate | intros [_ H]; discriminate H].
Qed.

(** [strip] leaves nothing exactly when the text is blank. *)
Lemma strip_nil (s : string) : strip s = "" <-> blank s = true.
Proof. unfold strip. now rewrite rstrip_nil, blank_lstrip. Qed.




Lemma split_go_some (cur s : string) : split_go (Some cur) s <> [].
Proof.
  revert cur. induction s as [|c s IH]; intros cur; simpl; [discriminate |].
  destruct (isspace c); [discriminate | apply IH].
Qed.

(** [split] finds no word exactly when the text is blank. *)
Lemma split_nil (s : string) : split s = [] <-> blank s = true.
Proof.
  unfold split. induction s as [|c s IH]; [now split |]. simpl.
  destruct (isspace c); simpl; [exact IH |].
  split; [intros H; now apply split_go_some in H | discriminate].
Qed.

Example isspace_ex :
  List.map isspace [" "; "009"; "010"; "013"; "031"; "133"; "160"; "a"; "_"]%char
  = [true; true; true; true; true; true; true; false; false].
Proof. reflexivity. Qed.

Example strip_ex : strip "  a.snowsql b.sql
" = "a.snowsql b.sql".
Proof. reflexivity. Qed.

Example split_ex :
  split " a.snowsql  b.sql
c.snowsql " = ["a.snowsql"; "b.sql"; "c.snowsql"].
Proof. reflexivity. Qed.

End StrFacts.

(** ** The pattern and the scan *)

Module ReFacts.
Import Re.

Lemma until_rbrace_length s name rest :
  until_rbrace s = Some (name, rest) ->
  String.length s = String.length name + 1 + String.length rest.
Proof.
  revert name rest. induction s as [|c s IH]; intros name rest; simpl.
  - discriminate.
  - destruct (Ascii.eqb c "}").
    + intros [= <- <-]. simpl. lia.
    + destruct (until_rbrace s) as [[n r]|]; [|discriminate].
      intros [= <- <-]. specialize (IH _ _ eq_refl). simpl. lia.
Qed.

Lemma match_here_length s name rest :
  match_here s = Some (name, rest) ->
  String.length s = 2 + String.length name + 1 + String.length rest.
Proof.
  unfold match_here.
  destruct s as [|c0 [|c1 body]]; simpl; try discriminate.
  destruct (Ascii.eqb c0 "$" && Ascii.eqb c1 "{"); [|discriminate].
  destruct (until_rbrace body) as [[[|c n] r]|] eqn:E; try discriminate.
  intros [= <- <-]. apply until_rbrace_length in E. simpl in *. lia.
Qed.

(** The three cases of [sub] and of [scan], as equations. *)
Lemma sub_cons {St : Type} (repl : string -> St -> string * St) c s' st :
  sub repl (String c s') st
  = sub_step repl c s' st (match_here (String c s')).
Proof.
  assert (forall m (e : match_here (String c s') = m),
             sub_unfold_clause_2 St repl c s' (exist _ m e) st
             = sub_step repl c s' st m) as H
    by (intros [[name rest]|] e; reflexivity).
  rewrite sub_equation_2. apply H.
Qed.

Lemma scan_cons c s' :
  scan (String c s') = scan_step c s' (match_here (String c s')).
Proof.
  assert (forall m (e : match_here (String c s') = m),
             scan_unfold_clause_2 c s' (exist _ m e) = scan_step c s' m) as H
    by (intros [[name rest]|] e; reflexivity).
  rewrite scan_equation_2. apply H.
Qed.


Lemma until_rbrace_spec s name rest :
  until_rbrace s = Some (name, rest)
  <-> s = name +:+ String "}" rest /\ Str.has_char "}" name = false.
Proof.
  split.
  - revert name rest. induction s as [|c s IH]; intros name rest; simpl.
    + discriminate.
    + destruct (Ascii.eqb c "}") eqn:Ec.
      * intros [= <- <-]. apply Ascii.eqb_eq in Ec as ->. now split.
      * destruct (until_rbrace s) as [[n r]|]; [|discriminate].
        intros [= <- <-]. destruct (IH _ _ eq_refl) as [-> Hn].
        split; [reflexivity | simpl; now rewrite Ec].
  - intros [-> Hn]. revert Hn.
    induction name as [|c name IH]; simpl; intros Hn.
    + reflexivity.
    + apply orb_false_iff in Hn as [Ec Hn].
      rewrite Ec, (IH Hn). reflexivity.
Qed.

Lemma match_here_spec s name rest :
  match_here s = Some (name, rest)
  <-> s = "${" +:+ name +:+ String "}" rest
      /\ name <> "" /\ Str.has_char "}" name = false.
Proof.
  unfold match_here. split.
  - destruct s as [|c0 [|c1 body]]; try discriminate.
    destruct (Ascii.eqb c0 "$") eqn:E0; [|discriminate].
    destruct (Ascii.eqb c1 "{") eqn:E1; [|discriminate]. simpl.
    apply Ascii.eqb_eq in E0 as ->. apply Ascii.eqb_eq in E1 as ->.
    destruct (until_rbrace body) as [[[|c n] r]|] eqn:E; try discriminate.
    intros [= <- <-]. apply until_rbrace_spec in E as [-> Hn].
    repeat split; [discriminate | exact Hn].
  - intros (-> & Hne & Hn).
    change ("${" +:+ name +:+ String "}" rest)
      with (String "$" (String "{" (name +:+ String "}" rest))).
    simpl.
    assert (until_rbrace (name +:+ String "}" rest) = Some (name, rest)) as ->
      by now apply until_rbrace_spec.
    destruct name; [contradiction | reflexivity].
Qed.

Lemma name_re_spec name :
  matches name_re name <-> name <> "" /\ Str.has_char "}" name = false.
Proof.
  split.
  - unfold name_re. remember (Plus (NotChr "}")) as r eqn:Er.
    induction 1 as [ | | | r s Hm _ | r s1 s2 Hm _ _ IH ]; try discriminate;
      injection Er as ->.
    + inversion Hm as [ | c x Hx | | | ]; subst. split; [discriminate |].
      simpl. apply orb_false_iff. split; [now apply Ascii.eqb_neq | reflexivity].
    + inversion Hm as [ | c x Hx | | | ]; subst.
      destruct (IH eq_refl) as [_ Hs2]. split; [discriminate |].
      rewrite StrFacts.app_cons. simpl. apply orb_false_iff.
      split; [now apply Ascii.eqb_neq | exact Hs2].
  - intros [Hne Hn]. induction name as [|c name IH]; [contradiction |].
    simpl in Hn. apply orb_false_iff in Hn as [Ec Hn].
    apply Ascii.eqb_neq in Ec.
    destruct name as [|d name].
    + apply m_plus_one. now constructor.
    + change (String c (String d name))
        with (String c "" +:+ String d name).
      apply m_plus_more; [now constructor |].
      apply IH; [discriminate | exact Hn].
Qed.

Lemma token_re_spec m :
  matches token_re m
  <-> exists name, m = "${" +:+ name +:+ "}"
                   /\ name <> "" /\ Str.has_char "}" name = false.
Proof.
  split.
  - unfold token_re. intros H.
    inversion H as [ | | r1 r2 a1 a2 Ha1 Ha2 | | ]; subst.
    inversion Ha1; subst.
    inversion Ha2 as [ | | r1 r2 b1 b2 Hb1 Hb2 | | ]; subst.
    inversion Hb1; subst.
    inversion Hb2 as [ | | r1 r2 n1 n2 Hn1 Hn2 | | ]; subst.
    inversion Hn2; subst.
    exists n1. split; [reflexivity | now apply name_re_spec].
  - intros (name & -> & Hname). apply name_re_spec in Hname.
    change ("${" +:+ name +:+ "}")
      with (String "$" "" +:+ (String "{" "" +:+ (name +:+ String "}" ""))).
    apply m_cat; [constructor |]. apply m_cat; [constructor |].
    apply m_cat; [exact Hname | constructor].
Qed.

(** [match_here] finds the match of the pattern at the start of the
    text, when there is one. *)
Lemma match_here_matches s name rest :
  match_here s = Some (name, rest)
  <-> matches token_re ("${" +:+ name +:+ "}")
      /\ s = ("${" +:+ name +:+ "}") +:+ rest.
Proof.
  rewrite match_here_spec, token_re_spec. split.
  - intros (-> & Hne & Hn). split.
    + exists name. auto.
    + change ("${" +:+ name +:+ "}") with (String "$" (String "{" (name +:+ "}"))).
      rewrite !StrFacts.app_cons, StrFacts.app_assoc. reflexivity.
  - intros [(name' & E & Hne & Hn) ->].
    change ("${" +:+ name +:+ "}")
      with (String "$" (String "{" (name +:+ "}"))) in *.
    change ("${" +:+ name' +:+ "}")
      with (String "$" (String "{" (name' +:+ "}"))) in E.
    injection E as E. apply StrFacts.app_inv_tail in E as <-.
    rewrite !StrFacts.app_cons, StrFacts.app_assoc. auto.
Qed.

(** At a given position the pattern matches in one way only, so the
    order in which a backtracking matcher tries the alternatives does not
    show. *)
Lemma match_unique m1 r1 m2 r2 :
  matches token_re m1 -> matches token_re m2 ->
  m1 +:+ r1 = m2 +:+ r2 -> m1 = m2 /\ r1 = r2.
Proof.
  intros H1 H2 E.
  destruct (proj1 (token_re_spec m1) H1) as (n1 & -> & _).
  destruct (proj1 (token_re_spec m2) H2) as (n2 & -> & _).
  pose proof (proj2 (match_here_matches _ n1 r1) (conj H1 eq_refl)) as M1.
  pose proof (proj2 (match_here_matches _ n2 r2) (conj H2 eq_refl)) as M2.
  rewrite E, M2 in M1. injection M1 as -> ->. now split.
Qed.

Lemma match_here_nil : match_here "" = None.
Proof. reflexivity. Qed.

Lemma match_here_not_dollar c s :
  Ascii.eqb c "$" = false -> match_here (String c s) = None.
Proof.
  intros Ec. unfold match_here. destruct s; [reflexivity |]. now rewrite Ec.
Qed.

(** Induction along the scan: the cases are those of [sub]. *)
Lemma scan_ind (P : string -> Prop) :
  P "" ->
  (forall c s', match_here (String c s') = None -> P s' -> P (String c s')) ->
  (forall c s' name rest,
      match_here (String c s') = Some (name, rest) ->
      P rest -> P (String c s')) ->
  forall s, P s.
Proof.
  intros Hnil Hskip Hmatch s.
  remember (String.length s) as n eqn:En. revert s En.
  induction n as [n IH] using lt_wf_ind. intros [|c s'] En.
  - exact Hnil.
  - destruct (match_here (String c s')) as [[name rest]|] eqn:E.
    + apply (Hmatch _ _ _ _ E). apply (IH (String.length rest)); [|reflexivity].
      apply match_here_length in E. simpl in *. lia.
    + apply (Hskip _ _ E). apply (IH (String.length s')); [|reflexivity].
      simpl in En. lia.
Qed.

Lemma sub_nil {St : Type} (repl : string -> St -> string * St) st :
  sub repl "" st = ("", st).
Proof. apply sub_equation_1. Qed.

Lemma sub_skip {St : Type} (repl : string -> St -> string * St) c s' st :
  match_here (String c s') = None ->
  sub repl (String c s') st
  = let '(out, st2) := sub repl s' st in (String c out, st2).
Proof. intros E. rewrite sub_cons, E. reflexivity. Qed.

Lemma sub_match {St : Type} (repl : string -> St -> string * St)
    c s' st name rest :
  match_here (String c s') = Some (name, rest) ->
  sub repl (String c s') st
  = let '(r, st1) := repl name st in
    let '(out, st2) := sub repl rest st1 in
    (r +:+ out, st2).
Proof. intros E. rewrite sub_cons, E. reflexivity. Qed.

Lemma scan_nil : scan "" = [].
Proof. apply scan_equation_1. Qed.

Lemma scan_skip c s' :
  match_here (String c s') = None ->
  scan (String c s') = Text c :: scan s'.
Proof. intros E. rewrite scan_cons, E. reflexivity. Qed.

Lemma scan_match c s' name rest :
  match_here (String c s') = Some (name, rest) ->
  scan (String c s') = Ref name :: scan rest.
Proof. intros E. rewrite scan_cons, E. reflexivity. Qed.

(** The scan loses nothing of the text. *)
Lemma source_scan s : source (scan s) = s.
Proof.
  induction s as [ | c s' E IH | c s' name rest E IH ] using scan_ind.
  - now rewrite scan_nil.
  - rewrite (scan_skip _ _ E). simpl. now rewrite IH.
  - rewrite (scan_match _ _ _ _ E). simpl. rewrite IH.
    apply match_here_spec in E as (-> & _). reflexivity.
Qed.

(** [re.sub] replaces the matches the scan finds, in order. *)
Lemma sub_scan {St : Type} (repl : string -> St -> string * St) s st :
  sub repl s st = replace repl (scan s) st.
Proof.
  revert st.
  induction s as [ | c s' E IH | c s' name rest E IH ] using scan_ind;
    intros st.
  - now rewrite sub_nil, scan_nil.
  - rewrite (sub_skip _ _ _ _ E), (scan_skip _ _ E). simpl.
    now rewrite IH.
  - rewrite (sub_match _ _ _ _ _ _ E), (scan_match _ _ _ _ E). simpl.
    destruct (repl name st) as [r st1]. now rewrite IH.
Qed.

(** A name the scan finds is not empty and contains no closing brace. *)
Lemma refs_scan_wf s name :
  name ∈ refs (scan s) -> name <> "" /\ Str.has_char "}" name = false.
Proof.
  induction s as [ | c s' E IH | c s' n rest E IH ] using scan_ind.
  - rewrite scan_nil. simpl. intros H. inversion H.
  - rewrite (scan_skip _ _ E). simpl. exact IH.
  - rewrite (scan_match _ _ _ _ E). simpl. intros H.
    apply elem_of_cons in H as [-> | H]; [|now apply IH].
    now apply match_here_spec in E as (_ & ? & ?).
Qed.

End ReFacts.

(** ** Token substitution *)

Example subst_ex1 :
  substitute_tokens {[ "DB" := "prod" ]} "use ${DB}; select ${X} from ${}"
  = ("use prod; select '__MISSING_X__' from ${}", ["X"]).
Proof. vm_compute. reflexivity. Qed.

Section Substitution.

Variable environ : gmap string string.

Lemma join_replacer segs missing :
  Re.replace (replacer environ) segs missing
  = (Str.join (map (render environ) segs),
     missing ++ filter (λ name, environ !! name = None) (Re.refs segs)).
Proof.
  revert missing. induction segs as [|[c|name] segs IH]; intros missing.
  - simpl. now rewrite app_nil_r.
  - simpl. now rewrite IH.
  - simpl. unfold replacer at 1, render at 1, replacer at 2.
    destruct (environ !! name) as [value|] eqn:E; rewrite IH; simpl.
    + rewrite filter_cons_False by congruence. reflexivity.
    + rewrite filter_cons_True by assumption.
      rewrite <- app_assoc. reflexivity.
Qed.

(** The two results of [substitute_tokens], read off the scan. *)
Lemma substitute_tokens_scan content :
  substitute_tokens environ content
  = (Str.join (map (render environ) (Re.scan content)),
     filter (λ name, environ !! name = None) (Re.findall content)).
Proof.
  unfold substitute_tokens. rewrite ReFacts.sub_scan, join_replacer.
  reflexivity.
Qed.

Lemma render_text c : render environ (Re.Text c) = String c "".
Proof. reflexivity. Qed.

Lemma render_present name value :
  environ !! name = Some value -> render environ (Re.Ref name) = value.
Proof. intros E. unfold render, replacer. now rewrite E. Qed.

Lemma render_absent name :
  environ !! name = None ->
  render environ (Re.Ref name) = "'__MISSING_" +:+ name +:+ "__'".
Proof. intros E. unfold render, replacer. now rewrite E. Qed.

(** Text without a dollar sign in front of the scanned text is copied. *)
Lemma sub_dollar_free {St : Type} (repl : string -> St -> string * St)
    pre s st :
  Str.has_char "$" pre = false ->
  Re.sub repl (pre +:+ s) st = (pre +:+ (Re.sub repl s st).1, (Re.sub repl s st).2).
Proof.
  induction pre as [|c pre IH]; intros H.
  - rewrite !StrFacts.app_nil_l. now destruct (Re.sub repl s st).
  - simpl in H. apply orb_false_iff in H as [Ec H].
    rewrite !StrFacts.app_cons, ReFacts.sub_skip
      by now apply ReFacts.match_here_not_dollar.
    rewrite (IH H). reflexivity.
Qed.

Lemma sub_replacer content missing :
  Re.sub (replacer environ) content missing
  = ((substitute_tokens environ content).1,
     missing ++ (substitute_tokens environ content).2).
Proof.
  rewrite substitute_tokens_scan, ReFacts.sub_scan, join_replacer.
  reflexivity.
Qed.

(** The step of the scan at a token reference. *)
Lemma substitute_tokens_ref pre name rest :
  Str.has_char "$" pre = false ->
  name <> "" -> Str.has_char "}" name = false ->
  substitute_tokens environ (pre +:+ "${" +:+ name +:+ "}" +:+ rest)
  = (pre +:+ render environ (Re.Ref name)
         +:+ (substitute_tokens environ rest).1,
     (replacer environ name []).2 ++ (substitute_tokens environ rest).2).
Proof.
  intros Hpre Hne Hname. unfold substitute_tokens at 1.
  rewrite (sub_dollar_free _ _ _ _ Hpre).
  assert (Re.match_here ("${" +:+ name +:+ "}" +:+ rest) = Some (name, rest))
    as E by (apply ReFacts.match_here_spec; auto).
  change ("${" +:+ name +:+ "}" +:+ rest)
    with (String "$" ("{" +:+ name +:+ "}" +:+ rest)) in *.
  rewrite (ReFacts.sub_match _ _ _ _ _ _ E). unfold render.
  destruct (replacer environ name []) as [r st1].
  rewrite sub_replacer. reflexivity.
Qed.

(** The step of the scan at the three characters [${}]. *)
Lemma substitute_tokens_empty_ref pre rest :
  Str.has_char "$" pre = false ->
  substitute_tokens environ (pre +:+ "${}" +:+ rest)
  = (pre +:+ "${}" +:+ (substitute_tokens environ rest).1,
     (substitute_tokens environ rest).2).
Proof.
  intros Hpre. unfold substitute_tokens.
  rewrite (sub_dollar_free _ _ _ _ Hpre).
  change ("${}" +:+ rest) with (String "$" (String "{" (String "}" rest))).
  rewrite ReFacts.sub_skip by reflexivity.
  rewrite !ReFacts.sub_skip by now apply ReFacts.match_here_not_dollar.
  now destruct (Re.sub (replacer environ) rest []) as [out st].
Qed.

Lemma match_here_startswith s name rest :
  Re.match_here s = Some (name, rest) -> Str.startswith "${" s = true.
Proof.
  intros E. apply ReFacts.match_here_spec in E as (-> & _). reflexivity.
Qed.

(** Text without the opening delimiter is copied. *)
Lemma sub_delimiter_free {St : Type} (repl : string -> St -> string * St)
    s st :
  Str.contains "${" s = false -> Re.sub repl s st = (s, st).
Proof.
  induction s as [|c s IH]; intros H.
  - apply ReFacts.sub_nil.
  - cbn [Str.contains] in H. apply orb_false_iff in H as [Hp H].
    rewrite ReFacts.sub_skip.
    + now rewrite (IH H).
    + destruct (Re.match_here (String c s)) as [[n r]|] eqn:E; [|reflexivity].
      apply match_here_startswith in E. congruence.
Qed.

(** Text in which the pattern matches nowhere is copied. *)
Lemma sub_no_match {St : Type} (repl : string -> St -> string * St) s st :
  (forall pre m post, s = pre +:+ m +:+ post -> ~ Re.matches Re.token_re m) ->
  Re.sub repl s st = (s, st).
Proof.
  induction s as [ | c s' E IH | c s' name rest E IH ] using ReFacts.scan_ind;
    intros H.
  - apply ReFacts.sub_nil.
  - rewrite (ReFacts.sub_skip _ _ _ _ E), IH; [reflexivity |].
    intros pre m post ->. apply (H (String c pre) m post). reflexivity.
  - exfalso. apply ReFacts.match_here_matches in E as [Hm E].
    apply (H "" ("${" +:+ name +:+ "}") rest); [|exact Hm].
    rewrite E. reflexivity.
Qed.

End Substitution.

(** C3. For every text and environment, [substitute_tokens] replaces each
    reference whose name the environment defines with exactly the value of
    that name, as it is, and no such name is in the list of missing tokens.
    The references are the matches of the scan, which loses nothing of the
    text; the third part is the same step for a reference written out in
    the text. *)
Theorem substitute_tokens_present
    (environ : gmap string string) (content : string) :
  Re.source (Re.scan content) = content
  /\ (exists pieces : list string,
        (substitute_tokens environ content).1 = Str.join pieces
        /\ Forall2
             (fun seg piece =>
                match seg with
                | Re.Text c => piece = String c ""
                | Re.Ref name =>
                    forall value, environ !! name = Some value -> piece = value
                end)
             (Re.scan content) pieces)
  /\ (forall pre name value rest,
        Str.has_char "$" pre = false ->
        name <> "" -> Str.has_char "}" name = false ->
        environ !! name = Some value ->
        content = pre +:+ "${" +:+ name +:+ "}" +:+ rest ->
        (substitute_tokens environ content).1
        = pre +:+ value +:+ (substitute_tokens environ rest).1)
  /\ (forall name,
        is_Some (environ !! name) ->
        name ∉ (substitute_tokens environ content).2).
Proof.
  split; [apply ReFacts.source_scan |]. split; [|split].
  - exists (map (render environ) (Re.scan content)).
    split; [now rewrite substitute_tokens_scan |].
    apply Forall2_fmap_r, Forall_Forall2_diag, Forall_forall.
    intros [c|name] _; [reflexivity |].
    intros value E. now apply render_present.
  - intros pre name value rest Hpre Hne Hname E ->.
    rewrite substitute_tokens_ref by assumption.
    now rewrite (render_present _ _ _ E).
  - intros name [value E]. rewrite substitute_tokens_scan. simpl.
    intros H. apply list_elem_of_filter in H as [H _]. congruence.
Qed.

Lemma substitute_tokens_present_witness :
  (substitute_tokens {[ "DB" := "prod" ]} "use ${DB}; select ${DB}.t").1
  = "use " +:+ "prod"
      +:+ (substitute_tokens {[ "DB" := "prod" ]} "; select ${DB}.t").1.
Proof.
  apply (proj1 (proj2 (proj2
           (substitute_tokens_present {[ "DB" := "prod" ]}
              "use ${DB}; select ${DB}.t"))) "use " "DB" "prod"
           "; select ${DB}.t");
    [reflexivity | discriminate | reflexivity | reflexivity | reflexivity].
Defined.

(** X2. What [substitute_tokens] does with the references whose name the
    environment does not define: each is replaced with the name between
    ['__MISSING_] and [__'], and the list of missing tokens is the list of
    these names as the scan meets them, repeated as often as they occur. *)
Lemma substitute_tokens_absent (environ : gmap string string) (content : string) :
  (exists pieces : list string,
      (substitute_tokens environ content).1 = Str.join pieces
      /\ Forall2
           (fun seg piece =>
              match seg with
              | Re.Text c => piece = String c ""
              | Re.Ref name =>
                  environ !! name = None ->
                  piece = "'__MISSING_" +:+ name +:+ "__'"
              end)
           (Re.scan content) pieces)
  /\ (substitute_tokens environ content).2
     = filter (λ name, environ !! name = None) (Re.findall content)
  /\ (forall pre name rest,
        Str.has_char "$" pre = false ->
        name <> "" -> Str.has_char "}" name = false ->
        environ !! name = None ->
        content = pre +:+ "${" +:+ name +:+ "}" +:+ rest ->
        substitute_tokens environ content
        = (pre +:+ ("'__MISSING_" +:+ name +:+ "__'")
               +:+ (substitute_tokens environ rest).1,
           name :: (substitute_tokens environ rest).2)).
Proof.
  split; [|split].
  - exists (map (render environ) (Re.scan content)).
    split; [now rewrite substitute_tokens_scan |].
    apply Forall2_fmap_r, Forall_Forall2_diag, Forall_forall.
    intros [c|name] _; [reflexivity |].
    intros E. now apply render_absent.
  - now rewrite substitute_tokens_scan.
  - intros pre name rest Hpre Hne Hname E ->.
    rewrite substitute_tokens_ref by assumption.
    rewrite (render_absent _ _ E). unfold replacer. now rewrite E.
Qed.

Lemma substitute_tokens_absent_witness :
  substitute_tokens {[ "DB" := "prod" ]} ("use " +:+ "${" +:+ "X" +:+ "}" +:+ "; ${X}")
  = ("use " +:+ ("'__MISSING_" +:+ "X" +:+ "__'")
       +:+ (substitute_tokens {[ "DB" := "prod" ]} "; ${X}").1,
     "X" :: (substitute_tokens {[ "DB" := "prod" ]} "; ${X}").2).
Proof.
  apply (proj2 (proj2 (substitute_tokens_absent {[ "DB" := "prod" ]}
                         ("use " +:+ "${" +:+ "X" +:+ "}" +:+ "; ${X}")))
           "use " "X" "; ${X}");
    [reflexivity | discriminate | reflexivity | reflexivity | reflexivity].
Defined.

(** The placeholder of a name without a quote and without a backslash is
    one single-quoted literal. *)
Lemma placeholder_quoted_literal (name : string) :
  Str.has_char "'" name = false ->
  Str.has_char "\" name = false ->
  Sql.quoted_literal ("'__MISSING_" +:+ name +:+ "__'") = true.
Proof.
  intros Hq Hb.
  change (Sql.literal_body (name +:+ "__'") = true).
  induction name as [|c name IH]; [reflexivity |].
  simpl in Hq, Hb. apply orb_false_iff in Hq as [Eq Hq].
  apply orb_false_iff in Hb as [Eb Hb].
  rewrite StrFacts.app_cons. cbn [Sql.literal_body]. rewrite Eq, Eb. now apply IH.
Qed.

(** C4. A reference whose name contains a quote: the name is absent from
    the environment, it is recorded once, and what replaces the reference
    is not a single-quoted literal, because the quote of the name closes
    the literal before its end. *)
Theorem placeholder_not_quoted_literal :
  substitute_tokens ∅ "select ${a'b}"
  = ("select '__MISSING_a'b__'", ["a'b"])
  /\ Sql.quoted_literal "'__MISSING_a'b__'" = false.
Proof. split; vm_compute; reflexivity. Qed.

(** C5. A text in which the token pattern matches nowhere comes back
    unchanged, with no missing token. So does a text without the opening
    delimiter, and in particular the result of a substitution that has
    none left. *)
Theorem substitute_tokens_no_reference
    (environ : gmap string string) (content : string) :
  ((forall pre m post,
       content = pre +:+ m +:+ post -> ~ Re.matches Re.token_re m) ->
   substitute_tokens environ content = (content, []))
  /\ (Str.contains "${" content = false ->
      substitute_tokens environ content = (content, []))
  /\ (forall environ0 : gmap string string,
        let substituted := (substitute_tokens environ0 content).1 in
        Str.contains "${" substituted = false ->
        substitute_tokens environ substituted = (substituted, [])).
Proof.
  split; [|split].
  - apply sub_no_match.
  - apply sub_delimiter_free.
  - intros environ0 substituted. apply sub_delimiter_free.
Qed.

Lemma substitute_tokens_no_reference_witness :
  substitute_tokens {[ "DB" := "prod" ]} "select $1 from {t -- ${"
  = ("select $1 from {t -- ${", []).
Proof.
  apply (proj1 (substitute_tokens_no_reference {[ "DB" := "prod" ]}
                  "select $1 from {t -- ${")).
  intros pre m post E Hm.
  apply ReFacts.token_re_spec in Hm as (name & -> & _).
  apply (f_equal (Str.has_char "}")) in E.
  rewrite !StrFacts.has_char_app in E. simpl in E.
  rewrite !orb_true_r in E. discriminate E.
Defined.

(** C6, as the claim states it, at the text [${}] and the empty
    environment: the reference would be replaced with the placeholder of
    the empty name and the empty name recorded. The text comes back as it
    is, with nothing recorded. *)
Lemma empty_name_not_looked_up :
  substitute_tokens ∅ "${}" = ("${}", [])
  /\ substitute_tokens ∅ "${}" <> ("'__MISSING___'", [""])
  /\ "" ∉ (substitute_tokens ∅ "${}").2.
Proof.
  assert (substitute_tokens ∅ "${}" = ("${}", [])) as E
    by (vm_compute; reflexivity).
  rewrite E. split; [reflexivity |]. split; [discriminate |].
  simpl. apply not_elem_of_nil.
Qed.

(** The scan of a text in two parts. *)
Lemma app_inv_head (a b c : string) : a +:+ b = a +:+ c -> b = c.
Proof.
  induction a as [|x a IH]; [now rewrite !StrFacts.app_nil_l |].
  rewrite !StrFacts.app_cons. intros [= E]. now apply IH.
Qed.

Lemma join_app (l1 l2 : list string) :
  Str.join (l1 ++ l2) = Str.join l1 +:+ Str.join l2.
Proof.
  induction l1 as [|x l1 IH]; [reflexivity |].
  cbn [app Str.join]. now rewrite IH, StrFacts.app_assoc.
Qed.

Lemma refs_app (segs1 segs2 : list Re.segment) :
  Re.refs (segs1 ++ segs2) = Re.refs segs1 ++ Re.refs segs2.
Proof.
  induction segs1 as [|[c|name] segs1 IH]; cbn [app Re.refs];
    [reflexivity | exact IH | now rewrite IH].
Qed.

(** When the scan of a text begins with the segments [segs], what it
    goes on with is the scan of the text behind these segments: the scan
    is at that position, and what lies before no longer matters. *)
Lemma scan_prefix (segs tail : list Re.segment) (s : string) :
  Re.scan (Re.source segs +:+ s) = segs ++ tail -> tail = Re.scan s.
Proof.
  induction segs as [|[c|name] segs IH]; cbn [Re.source app].
  - rewrite StrFacts.app_nil_l. now intros ->.
  - rewrite StrFacts.app_cons, ReFacts.scan_cons.
    destruct (Re.match_here _) as [[n r]|]; cbn [Re.scan_step];
      [discriminate |].
    intros [= H]. now apply IH.
  - change ("${" +:+ name +:+ "}" +:+ Re.source segs)
      with (String "$" (String "{" (name +:+ String "}" (Re.source segs)))).
    rewrite !StrFacts.app_cons, ReFacts.scan_cons.
    destruct (Re.match_here _) as [[n r]|] eqn:E; cbn [Re.scan_step];
      [|discriminate].
    intros [= -> H]. apply IH. rewrite <- H. f_equal.
    apply ReFacts.match_here_spec in E as (E & _).
    change ("${" +:+ name +:+ String "}" r)
      with (String "$" (String "{" (name +:+ String "}" r))) in E.
    injection E as E. rewrite StrFacts.app_assoc in E.
    apply app_inv_head in E. rewrite StrFacts.app_cons in E.
    now injection E as ->.
Qed.

(** C6, amended. The pattern asks for at least one character between the
    delimiters, so [${}] is not a token reference. Wherever the scan of a
    text arrives at these three characters, after any segments, references
    among them, it copies them as they are, looks nothing up, and goes on
    with the text behind them: the result is the replacement of the
    segments before, the three characters, and the result for the rest.
    The empty name is never among the names the scan finds, nor in the
    list of missing tokens. *)
Theorem substitute_tokens_empty_name (environ : gmap string string) :
  substitute_tokens environ "${}" = ("${}", [])
  /\ (forall pre rest,
        Str.has_char "$" pre = false ->
        substitute_tokens environ (pre +:+ "${}" +:+ rest)
        = (pre +:+ "${}" +:+ (substitute_tokens environ rest).1,
           (substitute_tokens environ rest).2))
  /\ (forall content,
        ("" ∉ Re.findall content)
        /\ ("" ∉ (substitute_tokens environ content).2))
  /\ (forall content segs tail rest,
        Re.scan content = segs ++ tail ->
        content = Re.source segs +:+ "${}" +:+ rest ->
        tail = Re.Text "$" :: Re.Text "{" :: Re.Text "}" :: Re.scan rest
        /\ substitute_tokens environ content
           = ((Re.replace (replacer environ) segs []).1
                +:+ "${}" +:+ (substitute_tokens environ rest).1,
              (Re.replace (replacer environ) segs []).2
                ++ (substitute_tokens environ rest).2)).
Proof.
  split; [|split; [|split]].
  - apply (substitute_tokens_empty_ref environ "" ""). reflexivity.
  - apply substitute_tokens_empty_ref.
  - intros content.
    assert ("" ∉ Re.findall content) as H
      by (intros H; now apply ReFacts.refs_scan_wf in H as [? _]).
    split; [exact H |].
    rewrite substitute_tokens_scan. simpl. intros H'.
    apply list_elem_of_filter in H' as [_ H']. contradiction.
  - intros content segs tail rest Hscan ->.
    assert (tail = Re.Text "$" :: Re.Text "{" :: Re.Text "}" :: Re.scan rest)
      as Htail.
    { apply scan_prefix in Hscan as ->.
      change ("${}" +:+ rest) with (String "$" (String "{" (String "}" rest))).
      rewrite ReFacts.scan_skip by reflexivity.
      now rewrite !ReFacts.scan_skip
        by now apply ReFacts.match_here_not_dollar. }
    split; [exact Htail |].
    rewrite (substitute_tokens_scan environ (Re.source segs +:+ _)).
    unfold Re.findall. rewrite Hscan, Htail.
    rewrite map_app, join_app, refs_app, filter_app, join_replacer.
    rewrite (substitute_tokens_scan environ rest). reflexivity.
Qed.

Lemma substitute_tokens_empty_name_witness :
  substitute_tokens {[ "DB" := "prod" ]} "a${b}${}, ${DB} $ ${}"
  = ((Re.replace (replacer {[ "DB" := "prod" ]})
        [Re.Text "a"; Re.Ref "b"] []).1
       +:+ "${}" +:+ (substitute_tokens {[ "DB" := "prod" ]} ", ${DB} $ ${}").1,
     (Re.replace (replacer {[ "DB" := "prod" ]})
        [Re.Text "a"; Re.Ref "b"] []).2
       ++ (substitute_tokens {[ "DB" := "prod" ]} ", ${DB} $ ${}").2).
Proof.
  apply (proj2 (proj2 (proj2 (substitute_tokens_empty_name {[ "DB" := "prod" ]})))
           "a${b}${}, ${DB} $ ${}" [Re.Text "a"; Re.Ref "b"]
           (Re.scan "${}, ${DB} $ ${}") ", ${DB} $ ${}");
    [vm_compute; reflexivity | reflexivity].
Defined.

(** The same text, evaluated: the reference before is replaced, the two
    [${}] stay, one after a reference and one after a lone dollar sign. *)
Example substitute_tokens_empty_name_ex :
  substitute_tokens {[ "DB" := "prod" ]} "a${b}${}, ${DB} $ ${}"
  = ("a'__MISSING_b__'${}, prod $ ${}", ["b"]).
Proof. vm_compute. reflexivity. Qed.

(** ** [validate_file] *)

Section ValidateFile.

Variable spawn : list string -> gmap string string -> child.
Variable mkstemp : gmap string string -> string.
Variable environ : gmap string string.

Lemma validate_file_missing filepath w :
  fs w !! filepath = None ->
  validate_file spawn mkstemp environ filepath w
  = (Raise (FileNotFoundError filepath), w).
Proof.
  intros E. unfold validate_file, validate_file_when, mbind, M_bind, read_file.
  now rewrite E.
Qed.

(** The result of [validate_file] on a file that is there, by what the
    checker does. *)
Lemma validate_file_found filepath w content :
  fs w !! filepath = Some content ->
  let tmp_path := mkstemp (fs w) in
  let missing_tokens := (substitute_tokens environ content).2 in
  let files1 := <[tmp_path := (substitute_tokens environ content).1]> (fs w) in
  validate_file spawn mkstemp environ filepath w
  = (match spawn (checker_argv tmp_path) files1 with
     | Finishes after_ms p =>
         if (120 * 1000 <? after_ms)%Z then
           Return (false, "Validation timed out after 120 seconds.",
                   missing_tokens)
         else
           Return (negb (Str.contains "[UNPARSABLE]" (stdout p +:+ stderr p)
                         || Str.contains "FATAL" (stdout p +:+ stderr p)
                         || negb ((returncode p =? 0)%Z
                                  || (returncode p =? 1)%Z)),
                   stdout p +:+ stderr p, missing_tokens)
     | NeverFinishes =>
         Return (false, "Validation timed out after 120 seconds.",
                 missing_tokens)
     | CannotStart msg => Raise (OSError msg)
     end,
     World (delete tmp_path files1) (console w)).
Proof.
  intros E tmp_path missing_tokens files1.
  subst tmp_path missing_tokens files1.
  unfold validate_file, validate_file_when, mbind, M_bind, read_file.
  rewrite E.
  destruct (substitute_tokens environ content) as [substituted missing].
  unfold named_temporary_file_when, try_finally, try_except, subprocess_run,
    unlink, mbind, M_bind, mret, M_ret, checker_argv.
  cbn [fs console fst snd].
  destruct (spawn _ _) as [after_ms p| |msg];
    [destruct (120 * 1000 <? after_ms)%Z | |];
    cbn [fs console]; rewrite lookup_insert_eq; reflexivity.
Qed.

End ValidateFile.

(** C1, as the claim states it, at a checker that exits with status 0 and
    writes [FATAL: aborted]: the status is 0 and the output has no
    [[UNPARSABLE]] marker, and the file is classified as failed. *)
Lemma fatal_output_fails :
  let p := CompletedProcess 0 "" "FATAL: aborted" in
  let w := World Scenario.disk [] in
  Scenario.checker (checker_argv (Scenario.tmp (fs w)))
    (<[Scenario.tmp (fs w) := "call abort()"]> (fs w)) = Finishes 300 p
  /\ returncode p = 0%Z
  /\ Str.contains "[UNPARSABLE]" (stdout p +:+ stderr p) = false
  /\ (validate_file Scenario.checker Scenario.tmp (Scenario.env "")
        "d.snowsql" w).1
     = Return (false, "FATAL: aborted", []).
Proof. repeat split; vm_compute; reflexivity. Qed.

(** C1, amended. When the checker completes within the time bound,
    [validate_file] classifies the file as failed if the output, stdout
    followed by stderr, contains [[UNPARSABLE]], whatever the exit status;
    and as passed when the exit status is 0 or 1 and the output contains
    neither [[UNPARSABLE]] nor [FATAL]. *)
Theorem validate_file_classification
    (spawn : list string -> gmap string string -> child)
    (mkstemp : gmap string string -> string)
    (environ : gmap string string) (filepath : string) (w : world)
    (content : string) (after_ms : Z) (p : completed_process) :
  fs w !! filepath = Some content ->
  spawn (checker_argv (mkstemp (fs w)))
    (<[mkstemp (fs w) := (substitute_tokens environ content).1]> (fs w))
  = Finishes after_ms p ->
  (after_ms <= 120 * 1000)%Z ->
  let output := stdout p +:+ stderr p in
  let missing_tokens := (substitute_tokens environ content).2 in
  (Str.contains "[UNPARSABLE]" output = true ->
   (validate_file spawn mkstemp environ filepath w).1
   = Return (false, output, missing_tokens))
  /\ ((returncode p = 0 \/ returncode p = 1)%Z ->
      Str.contains "[UNPARSABLE]" output = false ->
      Str.contains "FATAL" output = false ->
      (validate_file spawn mkstemp environ filepath w).1
      = Return (true, output, missing_tokens)).
Proof.
  intros E Hrun Htime output missing_tokens.
  rewrite (validate_file_found _ _ _ _ _ _ E), Hrun.
  assert ((120 * 1000 <? after_ms)%Z = false) as -> by lia.
  fold output missing_tokens. cbn [fst]. split.
  - intros ->. reflexivity.
  - intros Hrc -> ->.
    assert (((returncode p =? 0)%Z || (returncode p =? 1)%Z) = true) as ->
      by (destruct Hrc as [-> | ->]; reflexivity).
    reflexivity.
Qed.

Lemma validate_file_classification_witness :
  (validate_file Scenario.checker Scenario.tmp (Scenario.env "")
     "b.snowsql" (World Scenario.disk [])).1
  = Return (false, "L:   1 | P:   1 | [UNPARSABLE] SELEC 1" +:+ "",
            (substitute_tokens (Scenario.env "") "SELEC 1").2).
Proof.
  apply (proj1 (validate_file_classification Scenario.checker Scenario.tmp
                  (Scenario.env "") "b.snowsql" (World Scenario.disk [])
                  "SELEC 1" 800
                  (CompletedProcess 1
                     "L:   1 | P:   1 | [UNPARSABLE] SELEC 1" "")
                  ltac:(vm_compute; reflexivity)
                  ltac:(vm_compute; reflexivity)
                  ltac:(lia))).
  vm_compute. reflexivity.
Defined.

(** C10. When the checker completes within the time bound and its output
    contains [FATAL], [validate_file] classifies the file as failed,
    whatever the exit status and whether or not the output contains
    [[UNPARSABLE]]. *)
Theorem validate_file_fatal
    (spawn : list string -> gmap string string -> child)
    (mkstemp : gmap string string -> string)
    (environ : gmap string string) (filepath : string) (w : world)
    (content : string) (after_ms : Z) (p : completed_process) :
  fs w !! filepath = Some content ->
  spawn (checker_argv (mkstemp (fs w)))
    (<[mkstemp (fs w) := (substitute_tokens environ content).1]> (fs w))
  = Finishes after_ms p ->
  (after_ms <= 120 * 1000)%Z ->
  Str.contains "FATAL" (stdout p +:+ stderr p) = true ->
  (validate_file spawn mkstemp environ filepath w).1
  = Return (false, stdout p +:+ stderr p,
            (substitute_tokens environ content).2).
Proof.
  intros E Hrun Htime Hfatal.
  rewrite (validate_file_found _ _ _ _ _ _ E), Hrun.
  assert ((120 * 1000 <? after_ms)%Z = false) as -> by lia.
  cbn [fst]. rewrite Hfatal, orb_true_r. reflexivity.
Qed.

Lemma validate_file_fatal_witness :
  (validate_file Scenario.checker Scenario.tmp (Scenario.env "")
     "d.snowsql" (World Scenario.disk [])).1
  = Return (false, "" +:+ "FATAL: aborted",
            (substitute_tokens (Scenario.env "") "call abort()").2).
Proof.
  apply (validate_file_fatal Scenario.checker Scenario.tmp
           (Scenario.env "") "d.snowsql" (World Scenario.disk [])
           "call abort()" 300 (CompletedProcess 0 "" "FATAL: aborted"));
    [vm_compute; reflexivity | vm_compute; reflexivity | lia
    | vm_compute; reflexivity].
Defined.

(** C7. When the invocation of the checker runs longer than 120 seconds,
    [validate_file] does not raise: it returns a failure with the message
    [Validation timed out after 120 seconds.] and the missing tokens it
    found before the invocation. The temporary file is gone and nothing
    was printed. *)
Theorem validate_file_timeout
    (spawn : list string -> gmap string string -> child)
    (mkstemp : gmap string string -> string)
    (environ : gmap string string) (filepath : string) (w : world)
    (content : string) :
  fs w !! filepath = Some content ->
  exceeds 120
    (spawn (checker_argv (mkstemp (fs w)))
       (<[mkstemp (fs w) := (substitute_tokens environ content).1]> (fs w))) ->
  validate_file spawn mkstemp environ filepath w
  = (Return (false, "Validation timed out after 120 seconds.",
             (substitute_tokens environ content).2),
     World (delete (mkstemp (fs w))
              (<[mkstemp (fs w) := (substitute_tokens environ content).1]>
                 (fs w)))
       (console w)).
Proof.
  intros E Hlong. rewrite (validate_file_found _ _ _ _ _ _ E).
  destruct (spawn _ _) as [after_ms p| |msg]; simpl in Hlong.
  - assert ((120 * 1000 <? after_ms)%Z = true) as -> by lia. reflexivity.
  - reflexivity.
  - contradiction.
Qed.

Lemma validate_file_timeout_witness :
  (validate_file Scenario.checker Scenario.tmp (Scenario.env "")
     "c.snowsql" (World Scenario.disk [])).1
  = Return (false, "Validation timed out after 120 seconds.", []).
Proof.
  rewrite (validate_file_timeout Scenario.checker Scenario.tmp
             (Scenario.env "") "c.snowsql" (World Scenario.disk [])
             "call sleep()");
    [reflexivity | vm_compute; reflexivity | vm_compute; exact I].
Defined.

(** X16. Once the temporary file is written ([validate_file] is
    [validate_file_when Written]), whatever the checker does: it
    completes, it runs out of time or it cannot be started and the
    exception leaves [validate_file]; when [validate_file] is done, the
    temporary file it created is no longer there, and every other file is
    as it was. When the file to validate is not there, no temporary file
    is created. *)
Theorem validate_file_removes_tmp
    (spawn : list string -> gmap string string -> child)
    (mkstemp : gmap string string -> string)
    (environ : gmap string string) (filepath : string) (w : world) :
  let w' := (validate_file spawn mkstemp environ filepath w).2 in
  (fs w !! filepath = None -> w' = w)
  /\ (is_Some (fs w !! filepath) ->
      fs w' !! mkstemp (fs w) = None
      /\ forall path, path <> mkstemp (fs w) -> fs w' !! path = fs w !! path)
  /\ (fs w !! mkstemp (fs w) = None -> fs w' = fs w)
  /\ console w' = console w.
Proof.
  intros w'. subst w'.
  destruct (fs w !! filepath) as [content|] eqn:E.
  - rewrite (validate_file_found _ _ _ _ _ _ E). cbn [snd fs console].
    split; [discriminate |]. split; [|split].
    + intros _. split; [apply lookup_delete_eq |].
      intros path Hne.
      rewrite lookup_delete_ne, lookup_insert_ne by congruence. reflexivity.
    + intros Hfresh. now apply delete_insert_id.
    + reflexivity.
  - rewrite (validate_file_missing _ _ _ _ _ E). cbn [snd].
    split; [reflexivity |]. split; [|split].
    + intros [? ?]. discriminate.
    + reflexivity.
    + reflexivity.
Qed.

Lemma validate_file_removes_tmp_witness :
  fs (validate_file Scenario.checker Scenario.tmp (Scenario.env "")
        "a.snowsql" (World Scenario.disk [])).2
  = Scenario.disk.
Proof.
  apply (proj1 (proj2 (proj2
           (validate_file_removes_tmp Scenario.checker Scenario.tmp
              (Scenario.env "") "a.snowsql" (World Scenario.disk []))))).
  vm_compute. reflexivity.
Defined.

(** When the write of the temporary file raises, the exception leaves
    [validate_file] before the [try] is entered: the checker is not
    started, [os.unlink] is not called, and the file stays, with what was
    written of it. *)
Lemma validate_file_when_write_fails
    (spawn : list string -> gmap string string -> child)
    (mkstemp : gmap string string -> string)
    (environ : gmap string string) (filepath : string) (w : world)
    (content : string) (e : exn) (partial : string) :
  fs w !! filepath = Some content ->
  validate_file_when spawn mkstemp (WriteFails e partial) environ filepath w
  = (Raise e, World (<[mkstemp (fs w) := partial]> (fs w)) (console w)).
Proof.
  intros E. unfold validate_file_when, mbind, M_bind, read_file. rewrite E.
  now destruct (substitute_tokens environ content) as [substituted missing].
Qed.

(** C8. An exit path on which the temporary file is not removed: the
    file to validate is there, the temporary file is created, and the
    write raises because the disk is full. The exception leaves
    [validate_file], and the temporary file, which did not exist before,
    is on the file system afterwards. *)
Theorem tmp_left_when_write_fails :
  let run :=
    validate_file_when Scenario.checker Scenario.tmp
      (WriteFails (OSError "[Errno 28] No space left on device") "use prod")
      (Scenario.env "") "a.snowsql" (World Scenario.disk []) in
  Scenario.disk !! "a.snowsql" = Some "use ${DB}; select ${X}"
  /\ Scenario.disk !! Scenario.tmp Scenario.disk = None
  /\ run.1 = Raise (OSError "[Errno 28] No space left on device")
  /\ fs run.2 !! Scenario.tmp Scenario.disk = Some "use prod".
Proof.
  cbv zeta.
  rewrite (validate_file_when_write_fails _ _ _ _ _ "use ${DB}; select ${X}")
    by (vm_compute; reflexivity).
  cbn [fst snd fs]. rewrite lookup_insert_eq.
  repeat split; vm_compute; reflexivity.
Qed.

(** ** The loop of [main] *)

Section Main.

Variable spawn : list string -> gmap string string -> child.
Variable mkstemp : gmap string string -> string.
Variable environ : gmap string string.

(** [validate_file] prints nothing and does not read the console. *)
Lemma validate_file_appends filepath files :
  exists r files1, forall c,
    validate_file spawn mkstemp environ filepath (World files c)
    = (r, World files1 c).
Proof.
  exists (validate_file spawn mkstemp environ filepath (World files [])).1,
    (fs (validate_file spawn mkstemp environ filepath (World files [])).2).
  intros c. destruct (files !! filepath) as [content|] eqn:E.
  - rewrite (validate_file_found _ _ _ _ (World files c) content E),
      (validate_file_found _ _ _ _ (World files []) content E).
    reflexivity.
  - rewrite (validate_file_missing _ _ _ _ (World files c) E),
      (validate_file_missing _ _ _ _ (World files []) E).
    reflexivity.
Qed.

(** What [validate_file] raises is not [SystemExit]. *)
Lemma validate_file_raises filepath w e :
  (validate_file spawn mkstemp environ filepath w).1 = Raise e ->
  forall code, e <> SystemExit code.
Proof.
  destruct (fs w !! filepath) as [content|] eqn:E.
  - rewrite (validate_file_found _ _ _ _ _ _ E). cbn [fst].
    destruct (spawn _ _) as [after_ms p| |msg];
      [destruct (120 * 1000 <? after_ms)%Z | |]; intros [= <-] code;
      discriminate.
  - rewrite (validate_file_missing _ _ _ _ _ E). intros [= <-] code.
    discriminate.
Qed.

Lemma validate_all_nil all_errors failed_files w :
  validate_all spawn mkstemp environ [] all_errors failed_files w
  = (Return (all_errors, failed_files), w).
Proof. reflexivity. Qed.

(** One turn of the loop on a file that is not there. *)
Lemma validate_all_missing filepath files all_errors failed_files w :
  fs w !! filepath = None ->
  validate_all spawn mkstemp environ (filepath :: files)
    all_errors failed_files w
  = validate_all spawn mkstemp environ files all_errors failed_files
      (World (fs w) (console w ++ [Validating filepath; FileNotFound])).
Proof.
  intros E. cbn [validate_all].
  unfold mbind, M_bind, print, path_exists. cbn [fs console].
  rewrite E, bool_decide_eq_false_2 by (intros [? ?]; discriminate).
  cbn [negb fs console]. rewrite <- app_assoc. reflexivity.
Qed.

(** One turn of the loop on a file that is there. *)
Lemma validate_all_found filepath files all_errors failed_files w :
  is_Some (fs w !! filepath) ->
  validate_all spawn mkstemp environ (filepath :: files)
    all_errors failed_files w
  = match validate_file spawn mkstemp environ filepath
            (World (fs w) (console w ++ [Validating filepath])) with
    | (Raise e, w1) => (Raise e, w1)
    | (Return (passed, output, missing_tokens), w1) =>
        let warned :=
          match missing_tokens with
          | [] => console w1
          | _ => console w1 ++ [MissingTokens missing_tokens]
          end in
        if passed then
          validate_all spawn mkstemp environ files all_errors failed_files
            (World (fs w1) (warned ++ [Passed]))
        else
          validate_all spawn mkstemp environ files
            (all_errors ++ [ErrorEntry filepath (Str.strip output)])
            (failed_files ++ [filepath])
            (World (fs w1) (warned ++ [Failed (Str.strip output)]))
    end.
Proof.
  intros E. cbn [validate_all].
  unfold mbind at 1 2, M_bind at 1 2, print at 1, path_exists.
  cbn [fs console]. rewrite bool_decide_eq_true_2 by exact E. cbn [negb].
  unfold mbind at 1, M_bind at 1.
  destruct (validate_file _ _ _ _ _) as [[[[passed output] missing]|e] w1];
    [|reflexivity].
  destruct w1 as [files1 c1]. cbn [fs console].
  destruct missing as [|m missing]; destruct passed; reflexivity.
Qed.

(** The loop only appends to the console, and what it does otherwise
    does not depend on what was printed before. *)
Lemma validate_all_appends files all_errors failed_files files0 :
  exists r files1 d, forall c,
    validate_all spawn mkstemp environ files all_errors failed_files
      (World files0 c)
    = (r, World files1 (c ++ d)).
Proof.
  revert all_errors failed_files files0.
  induction files as [|filepath files IH];
    intros all_errors failed_files files0.
  - exists (Return (all_errors, failed_files)), files0, []. intros c.
    rewrite validate_all_nil, app_nil_r. reflexivity.
  - destruct (files0 !! filepath) as [content|] eqn:E.
    + destruct (validate_file_appends filepath files0)
        as ([[[passed output] missing]|e] & files1 & Hv).
      * set (warning := match missing with
                        | [] => []
                        | _ => [MissingTokens missing]
                        end).
        destruct passed.
        -- destruct (IH all_errors failed_files files1) as (r & files2 & d & H).
           exists r, files2, ([Validating filepath] ++ warning ++ [Passed] ++ d).
           intros c. rewrite validate_all_found by (cbn; eauto).
           cbn [fs console]. rewrite Hv. cbn [fs console].
           rewrite !app_assoc, <- H. f_equal. f_equal.
           subst warning. destruct missing; [|reflexivity].
           now rewrite app_nil_r.
        -- destruct (IH (all_errors ++ [ErrorEntry filepath (Str.strip output)])
                       (failed_files ++ [filepath]) files1)
             as (r & files2 & d & H).
           exists r, files2,
             ([Validating filepath] ++ warning
                ++ [Failed (Str.strip output)] ++ d).
           intros c. rewrite validate_all_found by (cbn; eauto).
           cbn [fs console]. rewrite Hv. cbn [fs console].
           rewrite !app_assoc, <- H. f_equal. f_equal.
           subst warning. destruct missing; [|reflexivity].
           now rewrite app_nil_r.
      * exists (Raise e), files1, [Validating filepath]. intros c.
        rewrite validate_all_found by (cbn; eauto).
        cbn [fs console]. now rewrite Hv.
    + destruct (IH all_errors failed_files files0) as (r & files1 & d & H).
      exists r, files1, ([Validating filepath; FileNotFound] ++ d).
      intros c. rewrite validate_all_missing by exact E.
      cbn [fs console]. rewrite H, app_assoc. reflexivity.
Qed.

(** With a fresh name for the temporary file, [validate_file] leaves
    the file system as it found it. *)
Lemma validate_file_fresh filepath files c :
  files !! mkstemp files = None ->
  validate_file spawn mkstemp environ filepath (World files c)
  = ((validate_file spawn mkstemp environ filepath (World files [])).1,
     World files c).
Proof.
  intros Hfresh. destruct (files !! filepath) as [content|] eqn:E.
  - rewrite (validate_file_found _ _ _ _ (World files c) content E),
      (validate_file_found _ _ _ _ (World files []) content E).
    cbn [fs console fst]. now rewrite delete_insert_id.
  - rewrite (validate_file_missing _ _ _ _ (World files c) E),
      (validate_file_missing _ _ _ _ (World files []) E).
    reflexivity.
Qed.

(** The loop when every file that is there passes: the two lists are
    as before. *)
Lemma validate_all_pass files0 files all_errors failed_files :
  files0 !! mkstemp files0 = None ->
  (forall f, f ∈ files -> is_Some (files0 !! f) ->
     exists out miss,
       (validate_file spawn mkstemp environ f (World files0 [])).1
       = Return (true, out, miss)) ->
  exists d, forall c,
    validate_all spawn mkstemp environ files all_errors failed_files
      (World files0 c)
    = (Return (all_errors, failed_files), World files0 (c ++ d)).
Proof.
  intros Hfresh. induction files as [|filepath files IH]; intros Hpass.
  - exists []. intros c. now rewrite validate_all_nil, app_nil_r.
  - destruct IH as (d & H).
    { intros f Hf. apply Hpass. now right. }
    destruct (files0 !! filepath) as [content|] eqn:E.
    + destruct (Hpass filepath) as (out & miss & Hv);
        [now left | rewrite E; eauto |].
      exists ([Validating filepath]
                ++ match miss with [] => [] | _ => [MissingTokens miss] end
                ++ [Passed] ++ d).
      intros c. rewrite validate_all_found by (cbn; rewrite E; eauto).
      cbn [fs console]. rewrite validate_file_fresh, Hv by exact Hfresh.
      cbn [fs console]. rewrite H, !app_assoc.
      destruct miss; [now rewrite app_nil_r | reflexivity].
    + exists ([Validating filepath; FileNotFound] ++ d). intros c.
      rewrite validate_all_missing by exact E.
      cbn [fs console]. now rewrite H, app_assoc.
Qed.

(** The loop when some file that is there fails, or one has failed
    before: it ends with a failed file on its list, or with the exception
    that left [validate_file]. *)
Lemma validate_all_fail files0 files all_errors failed_files :
  files0 !! mkstemp files0 = None ->
  (failed_files <> []
   \/ exists f out miss,
        f ∈ files /\ is_Some (files0 !! f)
        /\ (validate_file spawn mkstemp environ f (World files0 [])).1
           = Return (false, out, miss)) ->
  exists r d,
    (forall c,
        validate_all spawn mkstemp environ files all_errors failed_files
          (World files0 c)
        = (r, World files0 (c ++ d)))
    /\ match r with
       | Return (_, failed_files') => failed_files' <> []
       | Raise e => forall code, e <> SystemExit code
       end.
Proof.
  intros Hfresh. revert all_errors failed_files.
  induction files as [|filepath files IH];
    intros all_errors failed_files Hfail.
  - destruct Hfail as [Hne | (f & _ & _ & Hf & _)]; [|inversion Hf].
    exists (Return (all_errors, failed_files)), []. split; [|exact Hne].
    intros c. now rewrite validate_all_nil, app_nil_r.
  - destruct (files0 !! filepath) as [content|] eqn:E.
    + destruct (validate_file spawn mkstemp environ filepath
                  (World files0 [])).1
        as [[[passed output] miss]|e] eqn:Hv.
      * set (warning := match miss with
                        | [] => []
                        | _ => [MissingTokens miss]
                        end).
        assert (forall c : list line,
                   match miss with
                   | [] => c ++ [Validating filepath]
                   | _ => (c ++ [Validating filepath]) ++ [MissingTokens miss]
                   end = c ++ [Validating filepath] ++ warning) as Hw.
        { intros c. subst warning.
          destruct miss; [reflexivity | now rewrite app_assoc]. }
        destruct passed.
        -- destruct (IH all_errors failed_files) as (r & d & H & Hr).
           { destruct Hfail as [Hne | (f & out & miss' & Hf & Hex & Hvf)];
               [now left | right].
             apply elem_of_cons in Hf as [-> | Hf]; [congruence |].
             exists f, out, miss'. auto. }
           exists r, ([Validating filepath] ++ warning ++ [Passed] ++ d).
           split; [|exact Hr]. intros c.
           rewrite validate_all_found by (cbn; rewrite E; eauto).
           cbn [fs console]. rewrite validate_file_fresh, Hv by exact Hfresh.
           cbn [fs console]. rewrite Hw, H, !app_assoc. reflexivity.
        -- destruct (IH (all_errors
                           ++ [ErrorEntry filepath (Str.strip output)])
                       (failed_files ++ [filepath]))
             as (r & d & H & Hr).
           { left. intros Hnil. apply app_eq_nil in Hnil as [_ Hnil].
             discriminate. }
           exists r, ([Validating filepath] ++ warning
                        ++ [Failed (Str.strip output)] ++ d).
           split; [|exact Hr]. intros c.
           rewrite validate_all_found by (cbn; rewrite E; eauto).
           cbn [fs console]. rewrite validate_file_fresh, Hv by exact Hfresh.
           cbn [fs console]. rewrite Hw, H, !app_assoc. reflexivity.
      * exists (Raise e), [Validating filepath]. split.
        -- intros c. rewrite validate_all_found by (cbn; rewrite E; eauto).
           cbn [fs console]. now rewrite validate_file_fresh, Hv.
        -- now apply (validate_file_raises filepath (World files0 [])).
    + destruct (IH all_errors failed_files) as (r & d & H & Hr).
      { destruct Hfail as [Hne | (f & out & miss & Hf & Hex & Hvf)];
          [now left | right].
        apply elem_of_cons in Hf as [-> | Hf].
        - rewrite E in Hex. destruct Hex. discriminate.
        - exists f, out, miss. auto. }
      exists r, ([Validating filepath; FileNotFound] ++ d).
      split; [|exact Hr]. intros c.
      rewrite validate_all_missing by exact E.
      cbn [fs console]. now rewrite H, app_assoc.
Qed.

(** [main] when there is nothing to validate. *)
Lemma main_no_input w :
  Str.strip (default "" (environ !! "CHANGED_FILES")) = "" ->
  main spawn mkstemp environ w
  = (Raise (SystemExit 0), World (fs w) (console w ++ [NoChangedFiles])).
Proof. intros E. unfold main. rewrite E. reflexivity. Qed.

Lemma main_no_candidates w :
  candidates environ = [] ->
  (main spawn mkstemp environ w).1 = Raise (SystemExit 0)
  /\ fs (main spawn mkstemp environ w).2 = fs w.
Proof.
  unfold candidates, main.
  destruct (Str.strip _) as [|a s]; [now split |].
  intros ->. now split.
Qed.

(** [main] when there are files to validate. *)
Lemma main_run w :
  candidates environ <> [] ->
  main spawn mkstemp environ w
  = let files := candidates environ in
    match validate_all spawn mkstemp environ files [] []
            (World (fs w) (console w ++ [Banner (length files)])) with
    | (Raise e, w1) => (Raise e, w1)
    | (Return (all_errors, failed_files), w1) =>
        let files2 :=
          match all_errors with
          | [] => fs w1
          | _ => <[ERROR_LOG :=
                     Str.join (List.map report_block all_errors)]> (fs w1)
          end in
        match failed_files with
        | [] =>
            (Raise (SystemExit 0),
             World files2 (console w1 ++ [ResultPassed (length files)]))
        | _ =>
            (Raise (SystemExit 1),
             World files2
               (console w1 ++ [ResultFailed (length failed_files)
                                 (length files) failed_files]))
        end
    end.
Proof.
  unfold candidates, main.
  destruct (Str.strip _) as [|a s]; [intros H; now contradiction H |].
  destruct (List.filter _ _) as [|f files] eqn:Ef;
    [intros H; now contradiction H |].
  intros _. cbv zeta.
  unfold mbind at 1 2, M_bind at 1 2, print at 1. cbn [fs console].
  destruct (validate_all _ _ _ _ _ _ _)
    as [[[all_errors failed_files]|e] [files1 c1]]; [|reflexivity].
  destruct all_errors, failed_files; reflexivity.
Qed.

(** The loop when none of the files is there. *)
Lemma validate_all_none_found files0 files all_errors failed_files :
  (forall f, f ∈ files -> files0 !! f = None) ->
  exists d, forall c,
    validate_all spawn mkstemp environ files all_errors failed_files
      (World files0 c)
    = (Return (all_errors, failed_files), World files0 (c ++ d)).
Proof.
  induction files as [|filepath files IH]; intros Hnone.
  - exists []. intros c. now rewrite validate_all_nil, app_nil_r.
  - destruct IH as (d & H).
    { intros f Hf. apply Hnone. now right. }
    exists ([Validating filepath; FileNotFound] ++ d). intros c.
    rewrite validate_all_missing by (apply Hnone; now left).
    cbn [fs console]. now rewrite H, app_assoc.
Qed.

(** [main] once the loop has left the two lists empty and the file
    system as it was. *)
Lemma main_all_passed w :
  (exists d, forall c,
      validate_all spawn mkstemp environ (candidates environ) [] []
        (World (fs w) c)
      = (Return ([], []), World (fs w) (c ++ d))) ->
  (main spawn mkstemp environ w).1 = Raise (SystemExit 0)
  /\ fs (main spawn mkstemp environ w).2 = fs w.
Proof.
  intros (d & H).
  destruct (candidates environ) as [|f files] eqn:Ec.
  - now apply main_no_candidates.
  - rewrite main_run by (rewrite Ec; discriminate).
    rewrite Ec. cbv zeta. rewrite H. now split.
Qed.

End Main.

(** C9. A turn of the loop of [main] on a path that is not on the file
    system prints the two lines of the warning and does nothing else: the
    loop goes on with the lists of errors and of failed files as they
    were, so its result and the file system it leaves are those of the
    loop without that path. When none of the files to validate is there,
    [main] exits with status 0 and writes no report. *)
Theorem missing_file_skipped
    (spawn : list string -> gmap string string -> child)
    (mkstemp : gmap string string -> string)
    (environ : gmap string string) (w : world) :
  (forall filepath files all_errors failed_files,
      fs w !! filepath = None ->
      let skipped :=
        validate_all spawn mkstemp environ (filepath :: files)
          all_errors failed_files w in
      let without :=
        validate_all spawn mkstemp environ files all_errors failed_files w in
      skipped
      = validate_all spawn mkstemp environ files all_errors failed_files
          (World (fs w) (console w ++ [Validating filepath; FileNotFound]))
      /\ skipped.1 = without.1
      /\ fs skipped.2 = fs without.2)
  /\ ((forall f, f ∈ candidates environ -> fs w !! f = None) ->
      (main spawn mkstemp environ w).1 = Raise (SystemExit 0)
      /\ fs (main spawn mkstemp environ w).2 = fs w).
Proof.
  split.
  - intros filepath files all_errors failed_files E skipped without.
    subst skipped without.
    rewrite (validate_all_missing _ _ _ _ _ _ _ _ E).
    split; [reflexivity |].
    destruct (validate_all_appends spawn mkstemp environ files
                all_errors failed_files (fs w)) as (r & files1 & d & H).
    destruct w as [files0 c]. cbn [fs console] in *.
    rewrite !H. now split.
  - intros Hnone. apply main_all_passed.
    now apply validate_all_none_found.
Qed.

Lemma missing_file_skipped_witness :
  (validate_all Scenario.checker Scenario.tmp (Scenario.env "")
     ["gone.snowsql"; "b.snowsql"] [] [] (World Scenario.disk [])).1
  = (validate_all Scenario.checker Scenario.tmp (Scenario.env "")
       ["b.snowsql"] [] [] (World Scenario.disk [])).1.
Proof.
  apply (proj1 (missing_file_skipped Scenario.checker Scenario.tmp
                  (Scenario.env "") (World Scenario.disk []))
           "gone.snowsql" ["b.snowsql"] [] []).
  vm_compute. reflexivity.
Defined.

(** C2. The exit status of the process. [main] exits with status 0 and
    leaves the file system as it was, so writes no report, when
    [CHANGED_FILES] is empty or blank, when none of its entries ends in
    [.snowsql], and when every candidate file that is there passes. The
    exit status is 1 when some candidate file that is there fails. The
    name of the temporary file is taken to be fresh. *)
Theorem main_exit_status
    (spawn : list string -> gmap string string -> child)
    (mkstemp : gmap string string -> string)
    (environ : gmap string string) (w : world) :
  let run := main spawn mkstemp environ w in
  (Str.strip (default "" (environ !! "CHANGED_FILES")) = "" ->
   run.1 = Raise (SystemExit 0) /\ exit_status run.1 = 0%Z
   /\ fs run.2 = fs w)
  /\ (candidates environ = [] ->
      run.1 = Raise (SystemExit 0) /\ exit_status run.1 = 0%Z
      /\ fs run.2 = fs w)
  /\ (fs w !! mkstemp (fs w) = None ->
      (forall f, f ∈ candidates environ -> is_Some (fs w !! f) ->
         exists out miss,
           (validate_file spawn mkstemp environ f w).1
           = Return (true, out, miss)) ->
      run.1 = Raise (SystemExit 0) /\ exit_status run.1 = 0%Z
      /\ fs run.2 = fs w)
  /\ (fs w !! mkstemp (fs w) = None ->
      (exists f out miss,
          f ∈ candidates environ /\ is_Some (fs w !! f)
          /\ (validate_file spawn mkstemp environ f w).1
             = Return (false, out, miss)) ->
      exit_status run.1 = 1%Z).
Proof.
  intros run. subst run. destruct w as [files0 c0]. cbn [fs console].
  assert (forall f,
             (validate_file spawn mkstemp environ f (World files0 c0)).1
             = (validate_file spawn mkstemp environ f (World files0 [])).1)
    as Hc.
  { intros f. destruct (validate_file_appends spawn mkstemp environ f files0)
      as (r & files1 & H). now rewrite !H. }
  split; [|split; [|split]].
  - intros E. rewrite main_no_input by exact E. now repeat split.
  - intros E.
    destruct (main_no_candidates spawn mkstemp environ (World files0 c0) E)
      as [-> ->]. now repeat split.
  - intros Hfresh Hpass.
    destruct (main_all_passed spawn mkstemp environ (World files0 c0))
      as [-> ->]; [|now repeat split].
    apply validate_all_pass; [exact Hfresh |].
    intros f Hf Hex. rewrite <- Hc. now apply Hpass.
  - intros Hfresh (f & out & miss & Hf & Hex & Hv).
    assert (candidates environ <> []) as Hne
      by (intros E; rewrite E in Hf; inversion Hf).
    rewrite main_run by exact Hne. cbv zeta. cbn [fs console].
    destruct (validate_all_fail spawn mkstemp environ files0
                (candidates environ) [] [] Hfresh) as (r & d & H & Hr).
    { right. exists f, out, miss. rewrite <- Hc. auto. }
    rewrite H. destruct r as [[all_errors failed_files]|e].
    + destruct failed_files; [contradiction | reflexivity].
    + cbn [fst]. destruct e; try reflexivity. now contradiction (Hr code).
Qed.

Lemma main_exit_status_witness :
  exit_status
    (main Scenario.checker Scenario.tmp
       (Scenario.env " a.snowsql  b.snowsql readme.md gone.snowsql ")
       (World Scenario.disk [])).1
  = 1%Z.
Proof.
  apply (proj2 (proj2 (proj2
           (main_exit_status Scenario.checker Scenario.tmp
              (Scenario.env " a.snowsql  b.snowsql readme.md gone.snowsql ")
              (World Scenario.disk []))))).
  - vm_compute. reflexivity.
  - exists "b.snowsql", "L:   1 | P:   1 | [UNPARSABLE] SELEC 1", [].
    split; [|split].
    + assert (candidates
                (Scenario.env " a.snowsql  b.snowsql readme.md gone.snowsql ")
              = ["a.snowsql"; "b.snowsql"; "gone.snowsql"]) as ->
        by (vm_compute; reflexivity).
      right. left.
    + exists "SELEC 1". vm_compute. reflexivity.
    + vm_compute. reflexivity.
Defined.

(** ** Runs of the script *)

(** Four ways out of [validate_file] once the temporary file is written:
    passed, failed, timed out, and the exception of a checker that cannot
    be started. The temporary file is gone each time. *)
Example validate_file_paths :
  let run filepath :=
    validate_file Scenario.checker Scenario.tmp (Scenario.env "") filepath
      (World Scenario.disk []) in
  let broken filepath :=
    validate_file (fun _ _ => CannotStart "[Errno 8] Exec format error: 'sqlfluff'")
      Scenario.tmp (Scenario.env "") filepath (World Scenario.disk []) in
  run "a.snowsql" = (Return (true, "", ["X"]), World Scenario.disk [])
  /\ run "b.snowsql"
     = (Return (false, "L:   1 | P:   1 | [UNPARSABLE] SELEC 1", []),
        World Scenario.disk [])
  /\ run "c.snowsql"
     = (Return (false, "Validation timed out after 120 seconds.", []),
        World Scenario.disk [])
  /\ broken "a.snowsql"
     = (Raise (OSError "[Errno 8] Exec format error: 'sqlfluff'"), World Scenario.disk []).
Proof.
  cbv beta zeta. repeat split; vm_compute; reflexivity.
Qed.

(** No changed file: status 0, nothing written. *)
Example main_no_changed_files :
  main Scenario.checker Scenario.tmp (Scenario.env "  ")
    (World Scenario.disk [])
  = (Raise (SystemExit 0), World Scenario.disk [NoChangedFiles]).
Proof. apply main_no_input. reflexivity. Qed.

(** One file without a token, a clean parse: status 0, the file passed. *)
Example main_clean_file :
  main Scenario.checker Scenario.tmp (Scenario.env "e.snowsql")
    (World Scenario.disk [])
  = (Raise (SystemExit 0),
     World Scenario.disk
       [Banner 1; Validating "e.snowsql"; Passed; ResultPassed 1]).
Proof.
  rewrite main_run by (vm_compute; discriminate).
  assert (candidates (Scenario.env "e.snowsql") = ["e.snowsql"]) as ->
    by (vm_compute; reflexivity).
  cbv zeta. rewrite validate_all_found by (vm_compute; eauto).
  cbn [fs console]. rewrite validate_file_fresh by reflexivity.
  assert ((validate_file Scenario.checker Scenario.tmp
             (Scenario.env "e.snowsql") "e.snowsql" (World Scenario.disk [])).1
          = Return (true, "", [])) as -> by (vm_compute; reflexivity).
  reflexivity.
Qed.

(** A token without a value and a clean parse: status 0 and a warning
    for the token. *)
Example main_missing_token :
  main Scenario.checker Scenario.tmp (Scenario.env "a.snowsql")
    (World Scenario.disk [])
  = (Raise (SystemExit 0),
     World Scenario.disk
       [Banner 1; Validating "a.snowsql"; MissingTokens ["X"]; Passed;
        ResultPassed 1]).
Proof.
  rewrite main_run by (vm_compute; discriminate).
  assert (candidates (Scenario.env "a.snowsql") = ["a.snowsql"]) as ->
    by (vm_compute; reflexivity).
  cbv zeta. rewrite validate_all_found by (vm_compute; eauto).
  cbn [fs console]. rewrite validate_file_fresh by reflexivity.
  assert ((validate_file Scenario.checker Scenario.tmp
             (Scenario.env "a.snowsql") "a.snowsql" (World Scenario.disk [])).1
          = Return (true, "", ["X"])) as -> by (vm_compute; reflexivity).
  reflexivity.
Qed.

(** A file the checker cannot parse: status 1, and the report holds the
    block of that file. *)
Example main_unparsable_file :
  let run :=
    main Scenario.checker Scenario.tmp (Scenario.env "b.snowsql")
      (World Scenario.disk []) in
  run.1 = Raise (SystemExit 1)
  /\ fs run.2 !! ERROR_LOG
     = Some ("File: b.snowsql
------------------------------------------------------------
L:   1 | P:   1 | [UNPARSABLE] SELEC 1

")
  /\ console run.2
     = [Banner 1; Validating "b.snowsql";
        Failed "L:   1 | P:   1 | [UNPARSABLE] SELEC 1";
        ResultFailed 1 1 ["b.snowsql"]].
Proof.
  cbv zeta. rewrite main_run by (vm_compute; discriminate).
  assert (candidates (Scenario.env "b.snowsql") = ["b.snowsql"]) as ->
    by (vm_compute; reflexivity).
  cbv zeta. rewrite validate_all_found by (vm_compute; eauto).
  cbn [fs console]. rewrite validate_file_fresh by reflexivity.
  assert ((validate_file Scenario.checker Scenario.tmp
             (Scenario.env "b.snowsql") "b.snowsql" (World Scenario.disk [])).1
          = Return (false, "L:   1 | P:   1 | [UNPARSABLE] SELEC 1", []))
    as -> by (vm_compute; reflexivity).
  cbn. rewrite lookup_insert_eq. repeat split.
Qed.

(** * Further properties *)

(** ** Token substitution, along the scan *)

Section SubstitutionSteps.

Variable environ : gmap string string.

Lemma substitute_tokens_nil : substitute_tokens environ "" = ("", []).
Proof. apply ReFacts.sub_nil. Qed.

Lemma substitute_tokens_skip c s' :
  Re.match_here (String c s') = None ->
  substitute_tokens environ (String c s')
  = (String c (substitute_tokens environ s').1,
     (substitute_tokens environ s').2).
Proof.
  intros E. unfold substitute_tokens. rewrite (ReFacts.sub_skip _ _ _ _ E).
  now destruct (Re.sub (replacer environ) s' []).
Qed.

Lemma substitute_tokens_match c s' name rest :
  Re.match_here (String c s') = Some (name, rest) ->
  substitute_tokens environ (String c s')
  = (render environ (Re.Ref name) +:+ (substitute_tokens environ rest).1,
     (replacer environ name []).2 ++ (substitute_tokens environ rest).2).
Proof.
  intros E. unfold substitute_tokens at 1.
  rewrite (ReFacts.sub_match _ _ _ _ _ _ E). unfold render.
  destruct (replacer environ name []) as [r st1].
  now rewrite sub_replacer.
Qed.

End SubstitutionSteps.

(** A match found in a text is found in the text with more behind it. *)
Lemma until_rbrace_app (s b name rest : string) :
  Re.until_rbrace s = Some (name, rest) ->
  Re.until_rbrace (s +:+ b) = Some (name, rest +:+ b).
Proof.
  revert name rest. induction s as [|c s IH]; intros name rest; simpl.
  - discriminate.
  - destruct (Ascii.eqb c "}").
    + now intros [= <- <-].
    + destruct (Re.until_rbrace s) as [[n r]|]; [|discriminate].
      intros [= <- <-]. now rewrite (IH _ _ eq_refl).
Qed.

Lemma match_here_app (a b name rest : string) :
  Re.match_here a = Some (name, rest) ->
  Re.match_here (a +:+ b) = Some (name, rest +:+ b).
Proof.
  intros E. apply ReFacts.match_here_spec in E as (-> & Hne & Hn).
  apply ReFacts.match_here_spec. repeat split; [|exact Hne | exact Hn].
  change ("${" +:+ name +:+ String "}" rest)
    with (String "$" (String "{" (name +:+ String "}" rest))).
  rewrite !StrFacts.app_cons, StrFacts.app_assoc. reflexivity.
Qed.

(** Without a closing brace there is no match. *)
Lemma until_rbrace_none (s : string) :
  Str.has_char "}" s = false -> Re.until_rbrace s = None.
Proof.
  induction s as [|c s IH]; [reflexivity |]. simpl. intros H.
  apply orb_false_iff in H as [-> H]. now rewrite (IH H).
Qed.

Lemma until_rbrace_some (s : string) :
  Str.has_char "}" s = true -> exists name rest, Re.until_rbrace s = Some (name, rest).
Proof.
  induction s as [|c s IH]; [discriminate |]. simpl.
  destruct (Ascii.eqb c "}"); [eauto |]. simpl. intros H.
  destruct (IH H) as (name & rest & ->). eauto.
Qed.

(** A text that does not match, followed by a text without a closing
    brace, does not match. *)
Lemma match_here_app_open (a b : string) :
  Str.has_char "}" b = false ->
  Re.match_here a = None -> Re.match_here (a +:+ b) = None.
Proof.
  intros Hb. destruct a as [|c0 [|c1 body]].
  - intros _. rewrite StrFacts.app_nil_l.
    destruct (Re.match_here b) as [[n r]|] eqn:E; [|reflexivity].
    apply ReFacts.match_here_spec in E as (-> & _).
    rewrite !StrFacts.has_char_app in Hb. simpl in Hb.
    rewrite !orb_true_r in Hb. discriminate.
  - intros _. rewrite StrFacts.app_cons, StrFacts.app_nil_l.
    unfold Re.match_here. destruct b as [|c1 b]; [reflexivity |].
    destruct (Ascii.eqb c0 "$" && Ascii.eqb c1 "{"); [|reflexivity].
    simpl in Hb. apply orb_false_iff in Hb as [_ Hb].
    now rewrite (until_rbrace_none _ Hb).
  - rewrite !StrFacts.app_cons. unfold Re.match_here.
    destruct (Ascii.eqb c0 "$" && Ascii.eqb c1 "{"); [|reflexivity].
    destruct (Re.until_rbrace body) as [[name rest]|] eqn:E.
    + rewrite (until_rbrace_app _ b _ _ E). now destruct name.
    + intros _.
      destruct (Str.has_char "}" body) eqn:Hbody.
      * apply until_rbrace_some in Hbody as (n & r & Hbody). congruence.
      * rewrite until_rbrace_none; [reflexivity |].
        now rewrite StrFacts.has_char_app, Hbody, Hb.
Qed.

(** X1. Environments that agree on the names a text refers to give the
    same substituted text and the same missing tokens: nothing else of the
    environment is read. *)
Theorem substitute_tokens_env_agree
    (environ1 environ2 : gmap string string) (content : string) :
  (forall name, name ∈ Re.findall content ->
                environ1 !! name = environ2 !! name) ->
  substitute_tokens environ1 content = substitute_tokens environ2 content.
Proof.
  rewrite !substitute_tokens_scan. unfold Re.findall.
  induction (Re.scan content) as [|[c|name] segs IH]; intros Hagree.
  - reflexivity.
  - simpl in *. injection (IH Hagree) as E1 E2. now rewrite E1, E2.
  - assert (environ1 !! name = environ2 !! name) as Hname
      by (apply Hagree; simpl; now left).
    assert (forall n, n ∈ Re.refs segs -> environ1 !! n = environ2 !! n)
      as Hrest by (intros n Hn; apply Hagree; simpl; now right).
    injection (IH Hrest) as E1 E2.
    cbn [map Re.refs Str.join]. unfold render at 1 3, replacer.
    rewrite Hname, E1.
    destruct (environ2 !! name) as [value|] eqn:E.
    + rewrite !filter_cons_False by congruence. now rewrite E2.
    + rewrite !filter_cons_True by congruence. now rewrite E2.
Qed.

Lemma substitute_tokens_env_agree_witness :
  substitute_tokens {[ "DB" := "prod"; "USER" := "ci" ]} "use ${DB}; ${X}"
  = substitute_tokens {[ "DB" := "prod"; "ROLE" := "r" ]} "use ${DB}; ${X}".
Proof.
  apply substitute_tokens_env_agree.
  assert (Re.findall "use ${DB}; ${X}" = ["DB"; "X"]) as ->
    by (vm_compute; reflexivity).
  intros name H.
  apply elem_of_cons in H as [-> | H]; [vm_compute; reflexivity |].
  apply list_elem_of_singleton in H as ->. vm_compute. reflexivity.
Defined.

(** X3. [substitute_tokens] reports no missing token exactly when the
    environment defines every name the text refers to. *)
Theorem no_missing_tokens_iff
    (environ : gmap string string) (content : string) :
  (substitute_tokens environ content).2 = []
  <-> forall name, name ∈ Re.findall content -> is_Some (environ !! name).
Proof.
  rewrite substitute_tokens_scan. cbn [snd].
  induction (Re.findall content) as [|name names IH].
  - split; [intros _ name H; inversion H | reflexivity].
  - destruct (environ !! name) as [value|] eqn:E.
    + rewrite filter_cons_False by congruence. rewrite IH. split.
      * intros H n Hn. apply elem_of_cons in Hn as [-> | Hn];
          [rewrite E; eauto | now apply H].
      * intros H n Hn. apply H. now right.
    + rewrite filter_cons_True by exact E. split; [discriminate |].
      intros H. destruct (H name) as [value Hv]; [now left | congruence].
Qed.

Lemma no_missing_tokens_iff_witness :
  (substitute_tokens {[ "DB" := "prod"; "USER" := "ci" ]}
     "use ${DB}; grant to ${USER}; use ${DB}").2 = [].
Proof.
  apply no_missing_tokens_iff.
  assert (Re.findall "use ${DB}; grant to ${USER}; use ${DB}"
          = ["DB"; "USER"; "DB"]) as -> by (vm_compute; reflexivity).
  intros name H. repeat (apply elem_of_cons in H as [-> | H]);
    [vm_compute; eauto .. | inversion H].
Defined.

(** X4. A tail without a closing brace is copied as it is, whatever it
    holds, an opening delimiter included: the result for a text followed by
    such a tail is the result for the text, with the tail appended. In
    particular a text without a closing brace comes back unchanged. *)
Theorem substitute_tokens_open_tail
    (environ : gmap string string) (content tail : string) :
  Str.has_char "}" tail = false ->
  substitute_tokens environ (content +:+ tail)
  = ((substitute_tokens environ content).1 +:+ tail,
     (substitute_tokens environ content).2).
Proof.
  intros Htail.
  induction content as [ | c s' E IH | c s' name rest E IH ]
    using ReFacts.scan_ind.
  - rewrite substitute_tokens_nil. cbn [fst snd].
    rewrite StrFacts.app_nil_l.
    unfold substitute_tokens. apply sub_no_match.
    intros pre m post -> Hm.
    apply ReFacts.token_re_spec in Hm as (name & -> & _).
    rewrite !StrFacts.has_char_app in Htail. simpl in Htail.
    rewrite !orb_true_r in Htail. discriminate.
  - rewrite StrFacts.app_cons.
    rewrite substitute_tokens_skip
      by (rewrite <- StrFacts.app_cons; now apply match_here_app_open).
    rewrite IH, (substitute_tokens_skip _ _ _ E). reflexivity.
  - rewrite StrFacts.app_cons.
    rewrite (substitute_tokens_match _ c (s' +:+ tail) name (rest +:+ tail))
      by (rewrite <- StrFacts.app_cons; now apply match_here_app).
    rewrite IH, (substitute_tokens_match _ _ _ _ _ E). cbn [fst snd].
    now rewrite StrFacts.app_assoc.
Qed.

Lemma substitute_tokens_open_tail_witness :
  substitute_tokens {[ "DB" := "prod" ]} ("use ${DB};" +:+ " -- ${DB")
  = ((substitute_tokens {[ "DB" := "prod" ]} "use ${DB};").1 +:+ " -- ${DB",
     (substitute_tokens {[ "DB" := "prod" ]} "use ${DB};").2).
Proof. apply substitute_tokens_open_tail. reflexivity. Defined.

(** A text that ends with a closing brace keeps doing so when characters
    are taken from its front, as long as some are left. *)
Lemma endswith_rbrace_tail (c : ascii) (s : string) :
  Str.endswith "}" (String c s) = true -> s = "" \/ Str.endswith "}" s = true.
Proof.
  rewrite StrFacts.endswith_unfold. intros H.
  apply orb_true_iff in H as [H | H]; [|now right].
  apply String.eqb_eq in H. injection H as _ ->. now left.
Qed.

Lemma endswith_rbrace_app (p s : string) :
  s <> "" -> Str.endswith "}" (p +:+ s) = true -> Str.endswith "}" s = true.
Proof.
  intros Hs. induction p as [|c p IH]; [now rewrite StrFacts.app_nil_l |].
  rewrite StrFacts.app_cons. intros H.
  apply endswith_rbrace_tail in H as [H | H]; [|now apply IH].
  destruct p; [now rewrite StrFacts.app_nil_l in H | discriminate H].
Qed.

Lemma endswith_has_char (c : ascii) (s : string) :
  Str.endswith (String c "") s = true -> Str.has_char c s = true.
Proof.
  intros H. apply StrFacts.endswith_spec in H as (pre & ->).
  rewrite StrFacts.has_char_app. simpl. rewrite Ascii.eqb_refl.
  now rewrite orb_true_r.
Qed.

(** A text that ends with a closing brace and does not match does not
    match with more behind it. *)
Lemma match_here_app_closed (a b : string) :
  Str.endswith "}" a = true ->
  Re.match_here a = None -> Re.match_here (a +:+ b) = None.
Proof.
  intros Ha. destruct a as [|c0 [|c1 body]].
  - discriminate Ha.
  - intros _. apply ReFacts.match_here_not_dollar.
    apply (endswith_has_char "}") in Ha. simpl in Ha.
    rewrite orb_false_r in Ha. now apply Ascii.eqb_eq in Ha as ->.
  - rewrite !StrFacts.app_cons. unfold Re.match_here.
    destruct (Ascii.eqb c0 "$" && Ascii.eqb c1 "{") eqn:Ec; [|reflexivity].
    apply andb_true_iff in Ec as [Ec0 Ec1]. apply Ascii.eqb_eq in Ec1 as ->.
    apply endswith_rbrace_tail in Ha as [Ha | Ha]; [discriminate Ha |].
    destruct body as [|d body]; [vm_compute in Ha; discriminate Ha |].
    apply endswith_rbrace_tail in Ha as [Ha | Ha]; [discriminate Ha |].
    apply (endswith_has_char "}") in Ha.
    apply until_rbrace_some in Ha as (name & rest & E).
    rewrite E, (until_rbrace_app _ b _ _ E). now destruct name.
Qed.

(** X5. Substitution goes through a concatenation whose first part ends
    with a closing brace: the substituted texts are concatenated, and so
    are the lists of missing tokens. No reference starts in the first part
    and ends in the second. *)
Theorem substitute_tokens_app
    (environ : gmap string string) (a b : string) :
  Str.endswith "}" a = true ->
  substitute_tokens environ (a +:+ b)
  = ((substitute_tokens environ a).1 +:+ (substitute_tokens environ b).1,
     (substitute_tokens environ a).2 ++ (substitute_tokens environ b).2).
Proof.
  intros Ha.
  assert (a = "" \/ Str.endswith "}" a = true) as H by now right.
  clear Ha. revert H.
  induction a as [ | c s' E IH | c s' name rest E IH ]
    using ReFacts.scan_ind; intros H.
  - rewrite StrFacts.app_nil_l, substitute_tokens_nil.
    now destruct (substitute_tokens environ b).
  - destruct H as [H | H]; [discriminate H |].
    rewrite StrFacts.app_cons.
    rewrite substitute_tokens_skip
      by (rewrite <- StrFacts.app_cons; now apply match_here_app_closed).
    rewrite IH by now apply endswith_rbrace_tail in H.
    rewrite (substitute_tokens_skip _ _ _ E). reflexivity.
  - destruct H as [H | H]; [discriminate H |].
    rewrite StrFacts.app_cons.
    rewrite (substitute_tokens_match _ c (s' +:+ b) name (rest +:+ b))
      by (rewrite <- StrFacts.app_cons; now apply match_here_app).
    rewrite (substitute_tokens_match _ _ _ _ _ E). cbn [fst snd].
    rewrite IH.
    + cbn [fst snd]. now rewrite StrFacts.app_assoc, app_assoc.
    + destruct rest as [|d rest]; [now left | right].
      apply ReFacts.match_here_spec in E as (E & _).
      rewrite E in H.
      apply (endswith_rbrace_app ("${" +:+ name +:+ "}") (String d rest));
        [discriminate |].
      rewrite !StrFacts.app_assoc. exact H.
Qed.

Lemma substitute_tokens_app_witness :
  substitute_tokens {[ "DB" := "prod" ]} ("use ${DB}" +:+ "; select ${X}")
  = ((substitute_tokens {[ "DB" := "prod" ]} "use ${DB}").1
       +:+ (substitute_tokens {[ "DB" := "prod" ]} "; select ${X}").1,
     (substitute_tokens {[ "DB" := "prod" ]} "use ${DB}").2
       ++ (substitute_tokens {[ "DB" := "prod" ]} "; select ${X}").2).
Proof. apply substitute_tokens_app. reflexivity. Defined.

(** ** [validate_file], outcome by outcome *)

(** X6. [validate_file] reports a file that is there as passed only for
    an invocation of the checker that completed within 120 seconds with
    exit status 0 or 1 and an output, stdout followed by stderr, free of
    [[UNPARSABLE]] and of [FATAL]; it then returns that output and the
    missing tokens of the file. Any other exit status, a timeout and a
    checker that cannot be started never give a pass. *)
Theorem validate_file_passes_iff
    (spawn : list string -> gmap string string -> child)
    (mkstemp : gmap string string -> string)
    (environ : gmap string string) (filepath : string) (w : world)
    (content output : string) (missing_tokens : list string) :
  fs w !! filepath = Some content ->
  (validate_file spawn mkstemp environ filepath w).1
  = Return (true, output, missing_tokens)
  <-> exists after_ms p,
        spawn (checker_argv (mkstemp (fs w)))
          (<[mkstemp (fs w) := (substitute_tokens environ content).1]> (fs w))
        = Finishes after_ms p
        /\ (after_ms <= 120 * 1000)%Z
        /\ (returncode p = 0 \/ returncode p = 1)%Z
        /\ Str.contains "[UNPARSABLE]" (stdout p +:+ stderr p) = false
        /\ Str.contains "FATAL" (stdout p +:+ stderr p) = false
        /\ output = stdout p +:+ stderr p
        /\ missing_tokens = (substitute_tokens environ content).2.
Proof.
  intros E. rewrite (validate_file_found _ _ _ _ _ _ E). cbn [fst]. split.
  - destruct (spawn _ _) as [after_ms p| |msg]; try discriminate.
    destruct (120 * 1000 <? after_ms)%Z eqn:Et; [discriminate |].
    intros [= Hpassed <- <-]. exists after_ms, p.
    apply negb_true_iff in Hpassed.
    apply orb_false_iff in Hpassed as [Hpassed Hrc].
    apply orb_false_iff in Hpassed as [Hu Hf].
    apply negb_false_iff, orb_true_iff in Hrc.
    repeat split; [lia | lia | exact Hu | exact Hf].
  - intros (after_ms & p & -> & Ht & Hrc & Hu & Hf & -> & ->).
    assert ((120 * 1000 <? after_ms)%Z = false) as -> by lia.
    rewrite Hu, Hf.
    assert (((returncode p =? 0)%Z || (returncode p =? 1)%Z) = true) as ->
      by (destruct Hrc as [-> | ->]; reflexivity).
    reflexivity.
Qed.

Lemma validate_file_passes_iff_witness :
  exists after_ms p,
    Scenario.checker (checker_argv (Scenario.tmp Scenario.disk))
      (<[Scenario.tmp Scenario.disk :=
           (substitute_tokens (Scenario.env "") "use ${DB}; select ${X}").1]>
         Scenario.disk)
    = Finishes after_ms p
    /\ (after_ms <= 120 * 1000)%Z
    /\ (returncode p = 0 \/ returncode p = 1)%Z
    /\ Str.contains "[UNPARSABLE]" (stdout p +:+ stderr p) = false
    /\ Str.contains "FATAL" (stdout p +:+ stderr p) = false
    /\ "" = stdout p +:+ stderr p
    /\ ["X"] = (substitute_tokens (Scenario.env "") "use ${DB}; select ${X}").2.
Proof.
  apply (proj1 (validate_file_passes_iff Scenario.checker Scenario.tmp
                  (Scenario.env "") "a.snowsql" (World Scenario.disk [])
                  "use ${DB}; select ${X}" "" ["X"]
                  ltac:(vm_compute; reflexivity))).
  vm_compute. reflexivity.
Defined.

(** X7. A timeout never leaves [validate_file] as an exception. A
    checker that cannot be started is not turned into a failure result:
    the exception of the failed start leaves [validate_file], after the
    temporary file has been removed. *)
Theorem validate_file_checker_exceptions
    (spawn : list string -> gmap string string -> child)
    (mkstemp : gmap string string -> string)
    (environ : gmap string string) (filepath : string) (w : world) :
  (validate_file spawn mkstemp environ filepath w).1 <> Raise TimeoutExpired
  /\ (forall content msg,
        fs w !! filepath = Some content ->
        spawn (checker_argv (mkstemp (fs w)))
          (<[mkstemp (fs w) := (substitute_tokens environ content).1]> (fs w))
        = CannotStart msg ->
        validate_file spawn mkstemp environ filepath w
        = (Raise (OSError msg),
           World (delete (mkstemp (fs w))
                    (<[mkstemp (fs w) := (substitute_tokens environ content).1]>
                       (fs w)))
             (console w))).
Proof.
  split.
  - destruct (fs w !! filepath) as [content|] eqn:E.
    + rewrite (validate_file_found _ _ _ _ _ _ E). cbn [fst].
      destruct (spawn _ _) as [after_ms p| |msg];
        [destruct (120 * 1000 <? after_ms)%Z | |]; discriminate.
    + rewrite (validate_file_missing _ _ _ _ _ E). discriminate.
  - intros content msg E Hstart.
    rewrite (validate_file_found _ _ _ _ _ _ E), Hstart. reflexivity.
Qed.

Lemma validate_file_checker_exceptions_witness :
  validate_file (fun _ _ => CannotStart "[Errno 8] Exec format error: 'sqlfluff'")
    Scenario.tmp (Scenario.env "") "a.snowsql" (World Scenario.disk [])
  = (Raise (OSError "[Errno 8] Exec format error: 'sqlfluff'"),
     World (delete (Scenario.tmp Scenario.disk)
              (<[Scenario.tmp Scenario.disk :=
                   (substitute_tokens (Scenario.env "")
                      "use ${DB}; select ${X}").1]> Scenario.disk))
       []).
Proof.
  apply (proj2 (validate_file_checker_exceptions
                  (fun _ _ => CannotStart "[Errno 8] Exec format error: 'sqlfluff'")
                  Scenario.tmp (Scenario.env "") "a.snowsql"
                  (World Scenario.disk []))
           "use ${DB}; select ${X}" "[Errno 8] Exec format error: 'sqlfluff'");
    [vm_compute; reflexivity | reflexivity].
Defined.

(** X8. [validate_file] starts the checker once, with the command line
    [sqlfluff parse --dialect snowflake --disable-progress-bar --nofail]
    and the path of the temporary file, on a file system where that path
    holds the substituted text: two checkers that behave alike on that
    one invocation give the same result and the same final state. *)
Theorem validate_file_one_invocation
    (spawn1 spawn2 : list string -> gmap string string -> child)
    (mkstemp : gmap string string -> string)
    (environ : gmap string string) (filepath : string) (w : world)
    (content : string) :
  fs w !! filepath = Some content ->
  let tmp_path := mkstemp (fs w) in
  let substituted := (substitute_tokens environ content).1 in
  let files1 := <[tmp_path := substituted]> (fs w) in
  let argv :=
    ["sqlfluff"; "parse"; "--dialect"; "snowflake";
     "--disable-progress-bar"; "--nofail"; tmp_path] in
  files1 !! List.last argv "" = Some substituted
  /\ (spawn1 argv files1 = spawn2 argv files1 ->
      validate_file spawn1 mkstemp environ filepath w
      = validate_file spawn2 mkstemp environ filepath w).
Proof.
  intros E tmp_path substituted files1 argv. split.
  - subst files1 argv. cbn [List.last]. apply lookup_insert_eq.
  - intros Hsame.
    rewrite !(validate_file_found _ _ _ _ _ _ E).
    fold tmp_path substituted files1.
    change (checker_argv tmp_path) with argv. now rewrite Hsame.
Qed.

Lemma validate_file_one_invocation_witness :
  validate_file Scenario.checker Scenario.tmp (Scenario.env "")
    "b.snowsql" (World Scenario.disk [])
  = validate_file
      (fun _ _ =>
         Finishes 800
           (CompletedProcess 1 "L:   1 | P:   1 | [UNPARSABLE] SELEC 1" ""))
      Scenario.tmp (Scenario.env "") "b.snowsql" (World Scenario.disk []).
Proof.
  apply (proj2 (validate_file_one_invocation Scenario.checker
                  (fun _ _ =>
                     Finishes 800
                       (CompletedProcess 1
                          "L:   1 | P:   1 | [UNPARSABLE] SELEC 1" ""))
                  Scenario.tmp (Scenario.env "") "b.snowsql"
                  (World Scenario.disk []) "SELEC 1"
                  ltac:(vm_compute; reflexivity))).
  vm_compute. reflexivity.
Defined.

(** ** [main], run by run *)

Section MainRuns.

Variable spawn : list string -> gmap string string -> child.
Variable mkstemp : gmap string string -> string.
Variable environ : gmap string string.

(** The loop on a list in two parts is the loop on the first part, and
    then on the second from where the first ended. *)
Lemma validate_all_app files1 files2 all_errors failed_files w :
  validate_all spawn mkstemp environ (files1 ++ files2)
    all_errors failed_files w
  = match validate_all spawn mkstemp environ files1
            all_errors failed_files w with
    | (Return (all_errors', failed_files'), w') =>
        validate_all spawn mkstemp environ files2 all_errors' failed_files' w'
    | (Raise e, w') => (Raise e, w')
    end.
Proof.
  revert all_errors failed_files w.
  induction files1 as [|filepath files1 IH]; intros all_errors failed_files w.
  - reflexivity.
  - rewrite <- app_comm_cons.
    destruct (fs w !! filepath) as [content|] eqn:E.
    + rewrite !validate_all_found by (rewrite E; eauto).
      destruct (validate_file _ _ _ _ _)
        as [[[[passed output] missing]|e] w1]; [|reflexivity].
      cbv zeta. destruct passed; apply IH.
    + rewrite !validate_all_missing by exact E. apply IH.
Qed.

(** An exception that leaves the loop is the [OSError] of a checker
    that cannot be started. *)
Lemma validate_all_raises files all_errors failed_files w e w' :
  validate_all spawn mkstemp environ files all_errors failed_files w
  = (Raise e, w') ->
  exists msg, e = OSError msg.
Proof.
  revert all_errors failed_files w.
  induction files as [|filepath files IH]; intros all_errors failed_files w.
  - discriminate.
  - destruct (fs w !! filepath) as [content|] eqn:E.
    + rewrite validate_all_found by (rewrite E; eauto).
      destruct (validate_file _ _ _ _ _)
        as [[[[passed output] missing]|e0] w1] eqn:Hv.
      * cbv zeta. destruct passed; apply IH.
      * intros [= <- <-].
        assert ((validate_file spawn mkstemp environ filepath
                   (World (fs w) (console w ++ [Validating filepath]))).1
                = Raise e0) as Hr by now rewrite Hv.
        rewrite (validate_file_found _ _ _ _ _ content) in Hr by exact E.
        cbn [fst] in Hr.
        destruct (spawn _ _) as [after_ms p| |msg];
          [destruct (120 * 1000 <? after_ms)%Z | |]; try discriminate.
        injection Hr as <-. eauto.
    + rewrite validate_all_missing by exact E. apply IH.
Qed.

(** The two lists of the loop only grow, and they grow together: the
    failed files are the files of the errors. *)
Lemma validate_all_grows files all_errors failed_files w
    all_errors' failed_files' w' :
  validate_all spawn mkstemp environ files all_errors failed_files w
  = (Return (all_errors', failed_files'), w') ->
  exists new,
    all_errors' = all_errors ++ new
    /\ failed_files' = failed_files ++ List.map err_file new.
Proof.
  revert all_errors failed_files w.
  induction files as [|filepath files IH]; intros all_errors failed_files w.
  - intros [= <- <- <-]. exists []. now rewrite !app_nil_r.
  - destruct (fs w !! filepath) as [content|] eqn:E.
    + rewrite validate_all_found by (rewrite E; eauto).
      destruct (validate_file _ _ _ _ _)
        as [[[[passed output] missing]|e0] w1]; [|discriminate].
      cbv zeta. destruct passed; [apply IH |].
      intros H. apply IH in H as (new & -> & ->).
      exists (ErrorEntry filepath (Str.strip output) :: new).
      now rewrite <- !app_assoc.
    + rewrite validate_all_missing by exact E. apply IH.
Qed.

(** With a fresh name for the temporary file, the loop leaves the file
    system as it found it. *)
Lemma validate_all_fs files0 files all_errors failed_files c :
  files0 !! mkstemp files0 = None ->
  fs (validate_all spawn mkstemp environ files all_errors failed_files
        (World files0 c)).2 = files0.
Proof.
  intros Hfresh. revert all_errors failed_files c.
  induction files as [|filepath files IH]; intros all_errors failed_files c.
  - reflexivity.
  - destruct (files0 !! filepath) as [content|] eqn:E.
    + rewrite validate_all_found by (cbn; rewrite E; eauto).
      cbn [fs console]. rewrite validate_file_fresh by exact Hfresh.
      destruct (validate_file _ _ _ _ _).1
        as [[[passed output] missing]|e0]; [|reflexivity].
      cbv zeta. cbn [fs console]. destruct passed; apply IH.
    + rewrite validate_all_missing by exact E. apply IH.
Qed.

(** The loop when no exception leaves [validate_file]: the failed files
    are the files that fail, in the order of the list, each with its
    entry. *)
Lemma validate_all_returns files0 files all_errors failed_files :
  files0 !! mkstemp files0 = None ->
  (forall f, f ∈ files -> crashes spawn mkstemp environ files0 f = false) ->
  exists d, forall c,
    validate_all spawn mkstemp environ files all_errors failed_files
      (World files0 c)
    = (Return
         (all_errors
            ++ List.map (failure_entry spawn mkstemp environ files0)
                 (List.filter (fails spawn mkstemp environ files0) files),
          failed_files
            ++ List.filter (fails spawn mkstemp environ files0) files),
       World files0 (c ++ d)).
Proof.
  intros Hfresh. revert all_errors failed_files.
  induction files as [|filepath files IH];
    intros all_errors failed_files Hsafe.
  - exists []. intros c. cbn [List.filter List.map].
    now rewrite validate_all_nil, !app_nil_r.
  - assert (forall f, f ∈ files ->
                      crashes spawn mkstemp environ files0 f = false)
      as Hrest by (intros f Hf; apply Hsafe; now right).
    assert (crashes spawn mkstemp environ files0 filepath = false)
      as Hhere by (apply Hsafe; now left).
    unfold crashes in Hhere.
    destruct (files0 !! filepath) as [content|] eqn:E.
    + destruct (verdict spawn mkstemp environ files0 filepath)
        as [[[passed output] miss]|e] eqn:Hv; [|discriminate Hhere].
      assert (fails spawn mkstemp environ files0 filepath = negb passed)
        as Hfails by (unfold fails; now rewrite E, Hv).
      assert (failure_entry spawn mkstemp environ files0 filepath
              = ErrorEntry filepath (Str.strip output))
        as Hentry by (unfold failure_entry; now rewrite Hv).
      unfold verdict in Hv.
      set (warning := match miss with
                      | [] => []
                      | _ => [MissingTokens miss]
                      end).
      assert (forall c : list line,
                 match miss with
                 | [] => c ++ [Validating filepath]
                 | _ => (c ++ [Validating filepath]) ++ [MissingTokens miss]
                 end = c ++ [Validating filepath] ++ warning) as Hw.
      { intros c. subst warning.
        destruct miss; [reflexivity | now rewrite app_assoc]. }
      cbn [List.filter]. rewrite Hfails.
      destruct passed; cbn [negb List.map].
      * destruct (IH all_errors failed_files Hrest) as (d & H).
        exists ([Validating filepath] ++ warning ++ [Passed] ++ d).
        intros c. rewrite validate_all_found by (cbn; rewrite E; eauto).
        cbn [fs console]. rewrite validate_file_fresh, Hv by exact Hfresh.
        cbn [fs console]. rewrite Hw, H, !app_assoc. reflexivity.
      * destruct (IH (all_errors ++ [ErrorEntry filepath (Str.strip output)])
                    (failed_files ++ [filepath]) Hrest) as (d & H).
        exists ([Validating filepath] ++ warning
                  ++ [Failed (Str.strip output)] ++ d).
        intros c. rewrite validate_all_found by (cbn; rewrite E; eauto).
        cbn [fs console]. rewrite validate_file_fresh, Hv by exact Hfresh.
        cbn [fs console]. rewrite Hentry, Hw, H, <- !app_assoc. reflexivity.
    + assert (fails spawn mkstemp environ files0 filepath = false)
        as Hfails by (unfold fails; now rewrite E).
      cbn [List.filter]. rewrite Hfails.
      destruct (IH all_errors failed_files Hrest) as (d & H).
      exists ([Validating filepath; FileNotFound] ++ d). intros c.
      rewrite validate_all_missing by exact E.
      cbn [fs console]. now rewrite H, app_assoc.
Qed.

End MainRuns.










(** X10. [main] never returns to its caller: every run ends in an
    exception, that of [sys.exit] or one that leaves the loop. The exit
    status of the process is 0 or 1, and it is 0 only through
    [sys.exit(0)]. *)
Theorem main_always_exits
    (spawn : list string -> gmap string string -> child)
    (mkstemp : gmap string string -> string)
    (environ : gmap string string) (w : world) :
  exists e,
    (main spawn mkstemp environ w).1 = Raise e
    /\ (exit_status (main spawn mkstemp environ w).1 = 0%Z
        \/ exit_status (main spawn mkstemp environ w).1 = 1%Z)
    /\ (exit_status (main spawn mkstemp environ w).1 = 0%Z ->
        e = SystemExit 0).
Proof.
  destruct (candidates environ) as [|f files] eqn:Ec.
  - destruct (main_no_candidates spawn mkstemp environ w Ec) as [-> _].
    exists (SystemExit 0).
    split; [reflexivity |]. split; [now left | reflexivity].
  - rewrite main_run by (rewrite Ec; discriminate). cbv zeta.
    destruct (validate_all _ _ _ _ _ _ _)
      as [[[all_errors failed_files]|e] w1] eqn:Hloop.
    + destruct failed_files.
      * exists (SystemExit 0).
        split; [reflexivity |]. split; [now left | reflexivity].
      * exists (SystemExit 1).
        split; [reflexivity |]. split; [now right | discriminate].
    + exists e. split; [reflexivity |]. cbn [fst].
      assert (forall code, e <> SystemExit code) as Hne.
      { apply validate_all_raises in Hloop as [msg ->]. discriminate. }
      destruct e; cbn [exit_status];
        try (split; [now right | discriminate]).
      now contradiction (Hne code).
Qed.

(** X11. A run in which no exception leaves [validate_file], with a
    fresh name for the temporary file. The failed files are the
    candidates that are there and fail, in the order of [CHANGED_FILES].
    When there is none, [main] exits with status 0 and writes nothing;
    otherwise it exits with status 1 and the report holds one block for
    each failed file, in that order. *)
Theorem main_reports_failures
    (spawn : list string -> gmap string string -> child)
    (mkstemp : gmap string string -> string)
    (environ : gmap string string) (w : world) :
  fs w !! mkstemp (fs w) = None ->
  (forall f, f ∈ candidates environ ->
             crashes spawn mkstemp environ (fs w) f = false) ->
  let failed :=
    List.filter (fails spawn mkstemp environ (fs w)) (candidates environ) in
  let run := main spawn mkstemp environ w in
  match failed with
  | [] => run.1 = Raise (SystemExit 0) /\ fs run.2 = fs w
  | _ =>
      run.1 = Raise (SystemExit 1)
      /\ fs run.2
         = <[ERROR_LOG :=
               Str.join
                 (List.map
                    (fun f =>
                       report_block
                         (failure_entry spawn mkstemp environ (fs w) f))
                    failed)]> (fs w)
  end.
Proof.
  intros Hfresh Hsafe. cbv zeta.
  assert (candidates environ = [] \/ candidates environ <> []) as [Ec | Hne]
    by (destruct (candidates environ); [now left | now right]).
  - rewrite Ec. cbn [List.filter]. now apply main_no_candidates.
  - rewrite main_run by exact Hne. cbv zeta.
    destruct (validate_all_returns spawn mkstemp environ (fs w)
                (candidates environ) [] [] Hfresh Hsafe) as (d & H).
    rewrite H. cbn [app].
    rewrite <- (List.map_map
                  (failure_entry spawn mkstemp environ (fs w)) report_block).
    destruct (List.filter _ (candidates environ)) as [|f failed];
      [now split |].
    cbn [List.map]. now split.
Qed.

Lemma main_reports_failures_witness :
  let environ := Scenario.env "a.snowsql b.snowsql gone.snowsql e.snowsql" in
  let run :=
    main Scenario.checker Scenario.tmp environ (World Scenario.disk []) in
  run.1 = Raise (SystemExit 1)
  /\ fs run.2
     = <[ERROR_LOG :=
           Str.join
             (List.map
                (fun f =>
                   report_block
                     (failure_entry Scenario.checker Scenario.tmp environ
                        Scenario.disk f))
                ["b.snowsql"])]> Scenario.disk.
Proof.
  intros environ run.
  assert (candidates environ
          = ["a.snowsql"; "b.snowsql"; "gone.snowsql"; "e.snowsql"]) as Ec
    by (vm_compute; reflexivity).
  pose proof (main_reports_failures Scenario.checker Scenario.tmp environ
                (World Scenario.disk [])) as H.
  cbv zeta in H. cbn [fs] in H.
  assert (List.filter
            (fails Scenario.checker Scenario.tmp environ Scenario.disk)
            (candidates environ) = ["b.snowsql"]) as Hfailed
    by (vm_compute; reflexivity).
  rewrite Hfailed in H. apply H.
  - vm_compute. reflexivity.
  - intros f Hf. rewrite Ec in Hf.
    repeat (apply elem_of_cons in Hf as [-> | Hf]);
      [vm_compute; reflexivity .. | inversion Hf].
Defined.

(** X13. The first candidate for which the checker cannot be started
    ends the run: with a fresh name for the temporary file, the [OSError]
    of the failed start leaves [main], the exit status is 1, and the file
    system is as it was, so that no report is written, also when files
    before it have failed. *)
Theorem main_stops_when_checker_cannot_start
    (spawn : list string -> gmap string string -> child)
    (mkstemp : gmap string string -> string)
    (environ : gmap string string) (w : world)
    (before after : list string) (filepath content msg : string) :
  fs w !! mkstemp (fs w) = None ->
  candidates environ = before ++ filepath :: after ->
  (forall f, f ∈ before -> crashes spawn mkstemp environ (fs w) f = false) ->
  fs w !! filepath = Some content ->
  spawn (checker_argv (mkstemp (fs w)))
    (<[mkstemp (fs w) := (substitute_tokens environ content).1]> (fs w))
  = CannotStart msg ->
  let run := main spawn mkstemp environ w in
  run.1 = Raise (OSError msg) /\ exit_status run.1 = 1%Z /\ fs run.2 = fs w.
Proof.
  intros Hfresh Hc Hsafe Hthere Hstart run. subst run.
  rewrite main_run by (rewrite Hc; now destruct before). cbv zeta.
  rewrite Hc, validate_all_app.
  destruct (validate_all_returns spawn mkstemp environ (fs w) before
              [] [] Hfresh Hsafe) as (d & H).
  rewrite H. rewrite validate_all_found by (cbn [fs]; rewrite Hthere; eauto).
  cbn [fs console]. rewrite validate_file_fresh by exact Hfresh.
  rewrite (validate_file_found spawn mkstemp environ filepath
             (World (fs w) []) content Hthere).
  cbn [fs console]. rewrite Hstart. cbn [fst snd fs exit_status].
  repeat split.
Qed.

Lemma main_stops_when_checker_cannot_start_witness :
  let checker argv files :=
    if bool_decide (files !! List.last argv "" = Some "call abort()")
    then CannotStart "[Errno 8] Exec format error: 'sqlfluff'"
    else Scenario.checker argv files in
  let run :=
    main checker Scenario.tmp (Scenario.env "b.snowsql d.snowsql e.snowsql")
      (World Scenario.disk []) in
  run.1 = Raise (OSError "[Errno 8] Exec format error: 'sqlfluff'")
  /\ exit_status run.1 = 1%Z /\ fs run.2 = Scenario.disk.
Proof.
  intros checker run.
  apply (main_stops_when_checker_cannot_start checker Scenario.tmp
           (Scenario.env "b.snowsql d.snowsql e.snowsql")
           (World Scenario.disk []) ["b.snowsql"] ["e.snowsql"] "d.snowsql"
           "call abort()").
  - vm_compute. reflexivity.
  - vm_compute. reflexivity.
  - intros f Hf. apply list_elem_of_singleton in Hf as ->.
    vm_compute. reflexivity.
  - vm_compute. reflexivity.
  - vm_compute. reflexivity.
Defined.

(** X14. A candidate with tokens the environment does not define is
    reported on the console: when [validate_file] returns for it with a
    list of missing tokens that is not empty, with a fresh name for the
    temporary file and no exception before it, the run prints the line
    that announces the file and the warning with these tokens, whether
    the file passes or fails and whatever happens to the files after
    it. *)
Theorem main_warns_missing_tokens
    (spawn : list string -> gmap string string -> child)
    (mkstemp : gmap string string -> string)
    (environ : gmap string string) (w : world)
    (before after : list string) (filepath : string)
    (passed : bool) (output : string) (missing_tokens : list string) :
  fs w !! mkstemp (fs w) = None ->
  candidates environ = before ++ filepath :: after ->
  (forall f, f ∈ before -> crashes spawn mkstemp environ (fs w) f = false) ->
  is_Some (fs w !! filepath) ->
  verdict spawn mkstemp environ (fs w) filepath
  = Return (passed, output, missing_tokens) ->
  missing_tokens <> [] ->
  let printed := console (main spawn mkstemp environ w).2 in
  Validating filepath ∈ printed /\ MissingTokens missing_tokens ∈ printed.
Proof.
  intros Hfresh Hc Hsafe Hthere Hv Hmiss printed. subst printed.
  rewrite main_run by (rewrite Hc; now destruct before). cbv zeta.
  rewrite Hc, validate_all_app.
  destruct (validate_all_returns spawn mkstemp environ (fs w) before
              [] [] Hfresh Hsafe) as (d & H).
  rewrite H. rewrite validate_all_found by exact Hthere.
  cbn [fs console]. rewrite validate_file_fresh by exact Hfresh.
  unfold verdict in Hv. rewrite Hv. cbv zeta. cbn [fs console].
  destruct missing_tokens as [|m miss]; [contradiction |].
  destruct passed;
    match goal with
    | |- context [validate_all _ _ _ after ?all_errors ?failed_files _] =>
        destruct (validate_all_appends spawn mkstemp environ after
                    all_errors failed_files (fs w))
          as (r & files1 & d' & H')
    end;
    rewrite H';
    (destruct r as [[all_errors failed_files]|e]; cbn [snd console];
     [destruct all_errors, failed_files; cbn [console] |]);
    split; set_solver.
Qed.

Lemma main_warns_missing_tokens_witness :
  let printed :=
    console (main Scenario.checker Scenario.tmp
               (Scenario.env "b.snowsql a.snowsql c.snowsql")
               (World Scenario.disk [])).2 in
  Validating "a.snowsql" ∈ printed /\ MissingTokens ["X"] ∈ printed.
Proof.
  apply (main_warns_missing_tokens Scenario.checker Scenario.tmp
           (Scenario.env "b.snowsql a.snowsql c.snowsql")
           (World Scenario.disk []) ["b.snowsql"] ["c.snowsql"] "a.snowsql"
           true "" ["X"]).
  - vm_compute. reflexivity.
  - vm_compute. reflexivity.
  - intros f Hf. apply list_elem_of_singleton in Hf as ->.
    vm_compute. reflexivity.
  - vm_compute. eauto.
  - vm_compute. reflexivity.
  - discriminate.
Defined.

(** X15. [validate_file] reports a file that is there as failed in two
    cases only. The checker completed within 120 seconds and its output
    contains [[UNPARSABLE]] or [FATAL], or its exit status is neither 0
    nor 1: the diagnostic is the output, stdout followed by stderr, as it
    is. Or the invocation ran longer than 120 seconds: the diagnostic is
    the timeout message. The missing tokens are returned in both. *)
Theorem validate_file_fails_iff
    (spawn : list string -> gmap string string -> child)
    (mkstemp : gmap string string -> string)
    (environ : gmap string string) (filepath : string) (w : world)
    (content output : string) (missing_tokens : list string) :
  fs w !! filepath = Some content ->
  let invocation :=
    spawn (checker_argv (mkstemp (fs w)))
      (<[mkstemp (fs w) := (substitute_tokens environ content).1]> (fs w)) in
  (validate_file spawn mkstemp environ filepath w).1
  = Return (false, output, missing_tokens)
  <-> missing_tokens = (substitute_tokens environ content).2
      /\ ((exists after_ms p,
              invocation = Finishes after_ms p
              /\ (after_ms <= 120 * 1000)%Z
              /\ (Str.contains "[UNPARSABLE]" (stdout p +:+ stderr p) = true
                  \/ Str.contains "FATAL" (stdout p +:+ stderr p) = true
                  \/ (returncode p <> 0 /\ returncode p <> 1)%Z)
              /\ output = stdout p +:+ stderr p)
          \/ (exceeds 120 invocation
              /\ output = "Validation timed out after 120 seconds.")).
Proof.
  intros E invocation.
  rewrite (validate_file_found _ _ _ _ _ _ E). cbn [fst].
  fold invocation. split.
  - destruct invocation as [after_ms p| |msg]; try discriminate.
    + destruct (120 * 1000 <? after_ms)%Z eqn:Et.
      * intros [= <- <-]. split; [reflexivity |]. right.
        split; [simpl; lia | reflexivity].
      * intros [= Hfailed <- <-]. split; [reflexivity |]. left.
        exists after_ms, p. apply negb_false_iff in Hfailed.
        repeat split; [lia |].
        apply orb_true_iff in Hfailed as [Hfailed | Hrc].
        -- apply orb_true_iff in Hfailed as [Hu | Hf]; auto.
        -- right. right. apply negb_true_iff, orb_false_iff in Hrc. lia.
    + intros [= <- <-]. split; [reflexivity |]. right. now split.
  - intros [-> [(after_ms & p & -> & Ht & Hbad & ->) | [Hlong ->]]].
    + assert ((120 * 1000 <? after_ms)%Z = false) as -> by lia.
      assert (Str.contains "[UNPARSABLE]" (stdout p +:+ stderr p)
              || Str.contains "FATAL" (stdout p +:+ stderr p)
              || negb ((returncode p =? 0)%Z || (returncode p =? 1)%Z)
              = true) as ->; [|reflexivity].
      destruct Hbad as [-> | [-> | [H0 H1]]];
        [reflexivity | now rewrite orb_true_r |].
      assert (((returncode p =? 0)%Z || (returncode p =? 1)%Z) = false) as ->
        by (apply orb_false_iff; lia).
      now rewrite orb_true_r.
    + destruct invocation as [after_ms p| |msg]; simpl in Hlong.
      * assert ((120 * 1000 <? after_ms)%Z = true) as -> by lia. reflexivity.
      * reflexivity.
      * contradiction.
Qed.

Lemma validate_file_fails_iff_witness :
  (validate_file
     (fun _ _ => Finishes 900 (CompletedProcess 2 "" "Usage: sqlfluff parse"))
     Scenario.tmp (Scenario.env "") "e.snowsql" (World Scenario.disk [])).1
  = Return (false, "Usage: sqlfluff parse", []).
Proof.
  apply (validate_file_fails_iff
           (fun _ _ => Finishes 900 (CompletedProcess 2 "" "Usage: sqlfluff parse"))
           Scenario.tmp (Scenario.env "") "e.snowsql" (World Scenario.disk [])
           "select 1" "Usage: sqlfluff parse" []
           ltac:(vm_compute; reflexivity)).
  split; [vm_compute; reflexivity |]. left.
  exists 900%Z, (CompletedProcess 2 "" "Usage: sqlfluff parse").
  split; [reflexivity |]. split; [lia |].
  split; [right; right; simpl; lia | reflexivity].
Defined.
